(** * Unipile connector: rate limiter and request dispatcher

    A shallow embedding of [packages/core/src/http/rate-limiter.ts],
    [packages/core/src/http/http-client.ts], the error classes under
    [packages/core/src/errors/] and [UnipileClient.fromEnv], with the
    properties of the specification stated and proved over it.

    Modelling conventions.
    - A JavaScript [number] that holds milliseconds, a counter, a status code
      or an attempt index is an integer of [Z]; non-integral values, [NaN]
      and the infinities are outside the model.
    - A [Date] is its time value ([getTime()], milliseconds since the epoch),
      an integer of [Z]; [Date | null] and [Date | undefined] are [option Z].
      The time value of a valid [Date] is at most 8,640,000,000,000,000 ms
      away from the epoch ([validTime]); beyond that [new Date(t)] is an
      invalid date, which the model does not represent.  An integer handed
      to [new Date] is kept as it is, and a property that reads it as an
      instant carries [validTime] of it as a hypothesis.  An integer of
      that range is below 2^53 in magnitude, and a double holds it exactly.
    - A header value is a byte string, as [Headers.get] returns it: a
      [string] holds one [ascii] for each of its code units.
    - [Map<string, AccountRateLimitState>] is a [gmap string _]; the state
      objects it holds are mutated in place by the source, which is a
      write-back with [alter] here.
    - The wall clock is an oracle: the [k]-th evaluation of [Date.now()] or
      [new Date()] yields [clock k].  Nothing is assumed about [clock].
    - The transport is an oracle too: the [k]-th call of [fetch] settles as
      [transport k], whatever the request was.
    - A request body is a JSON value, so that serialising it cannot throw. *)

From Stdlib Require Import ZArith Lia Bool Ascii.
From stdpp Require Import gmap strings pretty.

Local Open Scope Z_scope.
Set Warnings "-register-all".

(** ** The world a call runs in, and the monad that threads it *)

(** Per-account rate limit state ([interface AccountRateLimitState]). *)
Record AccountRateLimitState := mkState {
  consecutiveErrors : Z;
  resetAt : option Z;
  currentBackoffMs : Z;
  lastRequestAt : option Z;
}.

Record World := mkWorld {
  accountStates : gmap string AccountRateLimitState;
  clockReads : nat;
  transportCalls : nat;
  slept : list Z;
}.

Definition M (A : Type) : Type := World -> A * World.

Definition ret {A} (a : A) : M A := fun w => (a, w).

Definition bind {A B} (m : M A) (k : A -> M B) : M B :=
  fun w => let (a, w') := m w in k a w'.

Notation "x <- m ;; k" := (bind m (fun x => k))
  (at level 100, m at next level, right associativity).
Notation "m ;;; k" := (bind m (fun _ => k))
  (at level 100, right associativity).

Definition getStates : M (gmap string AccountRateLimitState) :=
  fun w => (accountStates w, w).

Definition modifyStates
    (f : gmap string AccountRateLimitState -> gmap string AccountRateLimitState)
    : M unit :=
  fun w => (tt, mkWorld (f (accountStates w)) (clockReads w)
                        (transportCalls w) (slept w)).

(** [sleep(ms)]: the call is suspended; the duration is recorded. *)
Definition sleep (ms : Z) : M unit :=
  fun w => (tt, mkWorld (accountStates w) (clockReads w)
                        (transportCalls w) (ms :: slept w)).

Definition set_consecutiveErrors (v : Z) (s : AccountRateLimitState) :=
  mkState v (resetAt s) (currentBackoffMs s) (lastRequestAt s).
Definition set_resetAt (v : option Z) (s : AccountRateLimitState) :=
  mkState (consecutiveErrors s) v (currentBackoffMs s) (lastRequestAt s).
Definition set_currentBackoffMs (v : Z) (s : AccountRateLimitState) :=
  mkState (consecutiveErrors s) (resetAt s) v (lastRequestAt s).
Definition set_lastRequestAt (v : option Z) (s : AccountRateLimitState) :=
  mkState (consecutiveErrors s) (resetAt s) (currentBackoffMs s) v.

(** ** RateLimiter *)

Section RateLimiter.

(** [clock k] is what the [k]-th reading of the wall clock returns. *)
Variable clock : nat -> Z.

(** The constructor's arguments. *)
Variables baseDelayMs maxDelayMs : Z.

(** [Date.now()], and the time value of [new Date()]. *)
Definition DateNow : M Z :=
  fun w => (clock (clockReads w),
            mkWorld (accountStates w) (S (clockReads w))
                    (transportCalls w) (slept w)).

Definition freshState : AccountRateLimitState :=
  mkState 0 None baseDelayMs None.

Definition getAccountState (accountId : string) : M AccountRateLimitState :=
  states <- getStates ;;
  match states !! accountId with
  | Some state => ret state
  | None =>
      modifyStates (insert accountId freshState) ;;;
      ret freshState
  end.

(** An assignment [state.field = v] on the object held by the map. *)
Definition mutate (accountId : string)
    (f : AccountRateLimitState -> AccountRateLimitState) : M unit :=
  modifyStates (alter f accountId).

(** The first [if] of [shouldWait]: [Some waitTime] is the early return. *)
Definition checkResetAt (accountId : string) (state : AccountRateLimitState)
    : M (option Z) :=
  match resetAt state with
  | Some r =>
      now <- DateNow ;;
      let waitTime := r - now in
      if 0 <? waitTime then ret (Some waitTime)
      else mutate accountId (set_resetAt None) ;;; ret None
  | None => ret None
  end.

(** The second [if] of [shouldWait]; clearing [resetAt] leaves the three
    fields read here as they were in [state]. *)
Definition checkBackoff (state : AccountRateLimitState) : M Z :=
  if 0 <? consecutiveErrors state then
    match lastRequestAt state with
    | Some l =>
        now <- DateNow ;;
        let timeSinceLastRequest := now - l in
        let waitTime := currentBackoffMs state - timeSinceLastRequest in
        if 0 <? waitTime then ret waitTime else ret 0
    | None => ret 0
    end
  else ret 0.

Definition shouldWait (accountId : string) : M Z :=
  state <- getAccountState accountId ;;
  early <- checkResetAt accountId state ;;
  match early with
  | Some waitTime => ret waitTime
  | None => checkBackoff state
  end.

Definition recordSuccess (accountId : string) : M unit :=
  getAccountState accountId ;;;
  mutate accountId (set_consecutiveErrors 0) ;;;
  mutate accountId (set_currentBackoffMs baseDelayMs) ;;;
  mutate accountId (set_resetAt None) ;;;
  now <- DateNow ;;
  mutate accountId (set_lastRequestAt (Some now)).

Definition recordRateLimitError (accountId : string) (resetAt' : option Z)
    : M unit :=
  getAccountState accountId ;;;
  mutate accountId (fun s => set_consecutiveErrors (consecutiveErrors s + 1) s) ;;;
  now <- DateNow ;;
  mutate accountId (set_lastRequestAt (Some now)) ;;;
  match resetAt' with
  | Some r => mutate accountId (set_resetAt (Some r))
  | None =>
      mutate accountId
        (fun s => set_currentBackoffMs
                    (Z.min (currentBackoffMs s * 2) maxDelayMs) s)
  end.

Definition reset (accountId : string) : M unit :=
  modifyStates (delete accountId).

Definition resetAll : M unit :=
  modifyStates (fun _ => ∅).

Definition getCurrentBackoff (accountId : string) : M Z :=
  state <- getAccountState accountId ;;
  ret (currentBackoffMs state).

Definition getConsecutiveErrors (accountId : string) : M Z :=
  state <- getAccountState accountId ;;
  ret (consecutiveErrors state).

(** *** [parseRateLimitHeaders] *)

(** [Headers] is keyed by lower-cased header name. *)
Definition Headers : Type := gmap string string.

(** The white space and line terminators that [parseInt] skips
    ([StrWhiteSpaceChar]), among the code units of a byte string: TAB, LF,
    VT, FF, CR, SP and the no-break space U+00A0.  The others (U+FEFF, the
    line and paragraph separators, the remaining space separators) lie
    above U+00FF and no header value holds them. *)
Definition isWhiteSpace (c : ascii) : bool :=
  let n := nat_of_ascii c in
  ((9 <=? n) && (n <=? 13))%nat || (n =? 32)%nat || (n =? 160)%nat.

Fixpoint trimStart (s : string) : string :=
  match s with
  | String c s' => if isWhiteSpace c then trimStart s' else s
  | EmptyString => s
  end.

Definition digitValue (c : ascii) : option Z :=
  let n := nat_of_ascii c in
  if ((48 <=? n) && (n <=? 57))%nat then Some (Z.of_nat n - 48) else None.

(** The longest prefix of decimal digits, read as a number; [acc] is
    [None] until a first digit has been seen. *)
Fixpoint parseDigits (s : string) (acc : option Z) : option Z :=
  match s with
  | String c s' =>
      match digitValue c with
      | Some d => parseDigits s' (Some (10 * default 0 acc + d))
      | None => acc
      end
  | EmptyString => acc
  end.

(** [parseInt(s, 10)]: leading white space is skipped, then a sign, then
    the longest prefix of decimal digits is read; [None] is [NaN], the
    result when there is no digit.  The result here is the integer that the
    digits denote.  The number that [parseInt] returns is the double
    nearest to it: the same integer up to 2^53 in magnitude, and a double
    of at least 2^53 in magnitude beyond. *)
Definition parseInt (s : string) : option Z :=
  match trimStart s with
  | String "-"%char s' => Z.opp <$> parseDigits s' None
  | String "+"%char s' => parseDigits s' None
  | s' => parseDigits s' None
  end.

(** The time value of [new Date(s)] for a string [s], which the host
    defines; [None] when the date is invalid. *)
Variable dateParse : string -> option Z.

(** The [Retry-After] block; [None] falls through to the next header.
    [Some t] is [new Date(t)] for the first form and the parsed date for
    the second. *)
Definition parseRetryAfter (headers : Headers) : M (option Z) :=
  match headers !! "retry-after" with
  | Some retryAfter =>
      match parseInt retryAfter with
      | Some seconds =>
          now <- DateNow ;;
          ret (Some (now + seconds * 1000))
      | None => ret (dateParse retryAfter)
      end
  | None => ret None
  end.

(** The [X-RateLimit-Reset] block; [Some ms] is [new Date(ms)]. *)
Definition parseRateLimitReset (headers : Headers) : option Z :=
  match headers !! "x-ratelimit-reset" with
  | Some rateLimitReset =>
      match parseInt rateLimitReset with
      | Some timestamp =>
          let ms := if 10000000000 <? timestamp then timestamp
                    else timestamp * 1000 in
          Some ms
      | None => None
      end
  | None => None
  end.

Definition parseRateLimitHeaders (headers : Headers) : M (option Z) :=
  early <- parseRetryAfter headers ;;
  match early with
  | Some date => ret (Some date)
  | None => ret (parseRateLimitReset headers)
  end.

End RateLimiter.

(** ** Error taxonomy *)

Inductive ErrorCategory :=
  | TIMEOUT | CONNECTION | RATE_LIMIT | AUTH | VALIDATION | NOT_FOUND | UNKNOWN.

(** A decoded JSON value; an object is the list of its own properties. *)
Inductive Json :=
  | JNull
  | JBool (b : bool)
  | JNumber (n : Z)
  | JString (s : string)
  | JArray (items : list Json)
  | JObject (fields : list (string * Json)).

Inductive Method := GET | POST | PUT | PATCH | DELETE.

(** An [Error] that is not a [UnipileError]. *)
Record PlainError := mkPlainError {
  errName : string;
  errMessage : string;
}.

Record ErrorContext := mkContext {
  statusCode : option Z;
  ctxUrl : option string;
  ctxMethod : option Method;
  responseBody : option Json;
  ctxAccountId : option string;
  retryAttempt : option Z;
  rateLimitResetAt : option Z;
  cause : option PlainError;
}.

Definition emptyContext : ErrorContext :=
  mkContext None None None None None None None None.

Definition with_responseBody (body : Json) (c : ErrorContext) : ErrorContext :=
  mkContext (statusCode c) (ctxUrl c) (ctxMethod c) (Some body)
            (ctxAccountId c) (retryAttempt c) (rateLimitResetAt c) (cause c).

Definition with_rateLimitResetAt (r : option Z) (c : ErrorContext) : ErrorContext :=
  mkContext (statusCode c) (ctxUrl c) (ctxMethod c) (responseBody c)
            (ctxAccountId c) (retryAttempt c) r (cause c).

Record ValidationErrorDetail := mkDetail {
  field : string;
  detailMessage : string;
  value : option Json;
}.

(** The class an error object is an instance of, with the fields that the
    subclass adds to the base class. *)
Inductive ErrorClass :=
  | BaseErrorClass
  | TimeoutErrorClass
  | ConnectionErrorClass
  | RateLimitErrorClass (resetAt : option Z) (accountId : option string)
  | AuthErrorClass
  | ValidationErrorClass (errors : list ValidationErrorDetail)
  | NotFoundErrorClass (resourceType resourceId : option string).

Record UnipileError := mkUnipileError {
  errClass : ErrorClass;
  message : string;
  category : ErrorCategory;
  context : ErrorContext;
  isRetryable : bool;
}.

Definition new_UnipileError (message : string) (category : ErrorCategory)
    (context : ErrorContext) (isRetryable : bool) : UnipileError :=
  mkUnipileError BaseErrorClass message category context isRetryable.

Definition new_TimeoutError (message : string) (context : ErrorContext) :=
  mkUnipileError TimeoutErrorClass message TIMEOUT context true.

Definition new_ConnectionError (message : string) (context : ErrorContext) :=
  mkUnipileError ConnectionErrorClass message CONNECTION context true.

Definition new_RateLimitError (message : string) (context : ErrorContext) :=
  mkUnipileError
    (RateLimitErrorClass (rateLimitResetAt context) (ctxAccountId context))
    message RATE_LIMIT context true.

Definition new_AuthError (message : string) (context : ErrorContext) :=
  mkUnipileError AuthErrorClass message AUTH context false.

Definition new_ValidationError (message : string)
    (errors : list ValidationErrorDetail) (context : ErrorContext) :=
  mkUnipileError (ValidationErrorClass errors) message VALIDATION context false.

Definition new_NotFoundError (message : string)
    (resourceType resourceId : option string) (context : ErrorContext) :=
  mkUnipileError (NotFoundErrorClass resourceType resourceId)
                 message NOT_FOUND context false.

(** What a [throw] carries: a typed error, another [Error], or a value that
    is no [Error] at all (kept as its [String(...)] rendering). *)
Inductive Thrown :=
  | ThrownTyped (e : UnipileError)
  | ThrownError (e : PlainError)
  | ThrownValue (rendering : string).

Inductive Completion (A : Type) :=
  | Normal (a : A)
  | Throw (t : Thrown).
Arguments Normal {A} a.
Arguments Throw {A} t.

(** ** HttpClient *)

Inductive ParamValue :=
  | ParamString (s : string) | ParamNumber (n : Z) | ParamBoolean (b : bool).

Record RequestOptions := mkOptions {
  method : Method;
  path : string;
  params : option (list (string * option ParamValue));
  body : option Json;
  optHeaders : option (list (string * string));
  accountId : option string;
  optTimeout : option Z;
}.

Inductive Payload :=
  | PUndefined | PJson (j : Json) | PText (s : string).

Record HttpResponse := mkHttpResponse {
  data : Payload;
  status : Z;
  headers : Headers;
}.

(** A [Response] as the transport hands it over; reading the body as JSON
    or as text may itself throw. *)
Record Response := mkResponse {
  respStatus : Z;
  respUrl : string;
  respHeaders : Headers;
  json : Completion Json;
  text : Completion string;
}.

(** How a call of [fetch] settles. *)
Inductive FetchOutcome :=
  | Resolved (response : Response)
  | Rejected (error : Thrown).

Record UnipileConfig := mkConfig {
  dsn : string;
  cfgApiKey : string;
  useHttp : option bool;
  cfgTimeout : option Z;
  cfgEnableRetry : option bool;
  retryBaseDelay : option Z;
  retryMaxDelay : option Z;
  cfgMaxRetries : option Z;
}.

Record HttpClient := mkHttpClient {
  baseUrl : string;
  apiKey : string;
  timeout : Z;
  enableRetry : bool;
  maxRetries : Z;
  limiterBaseDelayMs : Z;
  limiterMaxDelayMs : Z;
}.

Module DEFAULT_CONFIG.
Definition useHttp := false.
Definition timeout := 30000.
Definition enableRetry := true.
Definition retryBaseDelay := 300000.
Definition retryMaxDelay := 7200000.
Definition maxRetries := 5.
End DEFAULT_CONFIG.

Definition new_HttpClient (config : UnipileConfig) : HttpClient :=
  let protocol :=
    match useHttp config with Some true => "http" | _ => "https" end in
  mkHttpClient
    (protocol +:+ "://" +:+ dsn config)
    (cfgApiKey config)
    (default DEFAULT_CONFIG.timeout (cfgTimeout config))
    (default DEFAULT_CONFIG.enableRetry (cfgEnableRetry config))
    (default DEFAULT_CONFIG.maxRetries (cfgMaxRetries config))
    (default DEFAULT_CONFIG.retryBaseDelay (retryBaseDelay config))
    (default DEFAULT_CONFIG.retryMaxDelay (retryMaxDelay config)).

(** [haystack.includes(needle)]. *)
Fixpoint includes (needle haystack : string) : bool :=
  String.prefix needle haystack ||
  match haystack with
  | String _ rest => includes needle rest
  | EmptyString => false
  end.

Definition safeParseJson (response : Response) : Json :=
  match json response with
  | Normal j => j
  | Throw _ => JNull
  end.

(** [obj[key]] on the own properties of an object. *)
Fixpoint property (key : string) (fields : list (string * Json)) : option Json :=
  match fields with
  | [] => None
  | (k, v) :: rest => if String.eqb k key then Some v else property key rest
  end.

Definition stringProperty (key : string) (fields : list (string * Json))
    : option string :=
  match property key fields with
  | Some (JString s) => Some s
  | _ => None
  end.

Definition extractErrorMessage (body : Json) (fallback : string) : string :=
  match body with
  | JObject obj =>
      match stringProperty "message" obj with
      | Some m => m
      | None =>
          match stringProperty "error" obj with
          | Some m => m
          | None =>
              match stringProperty "error_description" obj with
              | Some m => m
              | None => fallback
              end
          end
      end
  | _ => fallback
  end.

Section HttpClient.

Variable clock : nat -> Z.
Variable dateParse : string -> option Z.

(** [transport k] is how the [k]-th call of [fetch] settles. *)
Variable transport : nat -> FetchOutcome.

(** [new URL(path, baseUrl)] with the query parameters set, rendered;
    [None] when the URL constructor throws its [TypeError]. *)
Variable buildUrl :
  string -> string -> option (list (string * option ParamValue)) -> option string.

Variable client : HttpClient.

Let baseDelayMs := limiterBaseDelayMs client.
Let maxDelayMs := limiterMaxDelayMs client.

Definition fetch : M FetchOutcome :=
  fun w => (transport (transportCalls w),
            mkWorld (accountStates w) (clockReads w)
                    (S (transportCalls w)) (slept w)).

(** [RateLimitError.getRetryAfterMs()]. *)
Definition getRetryAfterMs (resetAt : option Z) : M Z :=
  match resetAt with
  | None => ret 0
  | Some r =>
      now <- DateNow clock ;;
      ret (Z.max 0 (r - now))
  end.

Definition throwTyped {A} (e : UnipileError) : M (Completion A) :=
  ret (Throw (ThrownTyped e)).

Definition handleResponse (response : Response) (options : RequestOptions)
    (attempt : Z) : M (Completion HttpResponse) :=
  let status := respStatus response in
  let context :=
    mkContext (Some status) (Some (respUrl response)) (Some (method options))
              None (accountId options) (Some attempt) None None in
  if status =? 429 then
    resetAt <- parseRateLimitHeaders clock dateParse (respHeaders response) ;;
    throwTyped (new_RateLimitError "Rate limit exceeded"
                  (with_rateLimitResetAt resetAt context))
  else if (status =? 401) || (status =? 403) then
    let body := safeParseJson response in
    throwTyped (new_AuthError (extractErrorMessage body "Authentication failed")
                  (with_responseBody body context))
  else if status =? 404 then
    let body := safeParseJson response in
    throwTyped (new_NotFoundError (extractErrorMessage body "Resource not found")
                  None None (with_responseBody body context))
  else if (status =? 400) || (status =? 422) then
    let body := safeParseJson response in
    throwTyped (new_ValidationError (extractErrorMessage body "Validation failed")
                  [] (with_responseBody body context))
  else if 500 <=? status then
    let body := safeParseJson response in
    throwTyped (new_UnipileError (extractErrorMessage body "Server error")
                  UNKNOWN (with_responseBody body context) true)
  else if 400 <=? status then
    let body := safeParseJson response in
    throwTyped (new_UnipileError (extractErrorMessage body "Request failed")
                  UNKNOWN (with_responseBody body context) false)
  else
    let contentType := respHeaders response !! "content-type" in
    let wrap (d : Payload) := mkHttpResponse d status (respHeaders response) in
    if status =? 204 then ret (Normal (wrap PUndefined))
    else
      match contentType with
      | Some c =>
          if includes "application/json" c then
            match json response with
            | Normal j => ret (Normal (wrap (PJson j)))
            | Throw t => ret (Throw t)
            end
          else
            match text response with
            | Normal s => ret (Normal (wrap (PText s)))
            | Throw t => ret (Throw t)
            end
      | None =>
          match text response with
          | Normal s => ret (Normal (wrap (PText s)))
          | Throw t => ret (Throw t)
          end
      end.

(** The [catch] clause of [executeRequest]: what it throws for the value
    [error] that the [try] block threw. *)
Definition executeRequest_catch (url : string) (timeout : Z)
    (options : RequestOptions) (attempt : Z) (error : Thrown) : UnipileError :=
  let context :=
    mkContext None (Some url) (Some (method options)) None None
              (Some attempt) None None in
  match error with
  | ThrownTyped e => e
  | ThrownError e =>
      if String.eqb (errName e) "AbortError" then
        new_TimeoutError
          ("Request timed out after " +:+ pretty timeout +:+ "ms") context
      else if includes "ECONNREFUSED" (errMessage e)
              || includes "ENOTFOUND" (errMessage e)
              || includes "network" (errMessage e) then
        new_ConnectionError
          ("Connection failed: " +:+ errMessage e)
          (mkContext None (Some url) (Some (method options)) None None
                     (Some attempt) None (Some e))
      else
        new_UnipileError ("Request failed: " +:+ errMessage e)
                         UNKNOWN context true
  | ThrownValue rendering =>
      new_UnipileError ("Request failed: " +:+ rendering) UNKNOWN context true
  end.

(** The [try]/[catch] of [executeRequest], once [fetch] has settled as
    [outcome]. *)
Definition settle (url : string) (timeout : Z) (options : RequestOptions)
    (attempt : Z) (outcome : FetchOutcome) : M (Completion HttpResponse) :=
  r <- match outcome with
       | Resolved response => handleResponse response options attempt
       | Rejected error => ret (Throw error)
       end ;;
  match r with
  | Normal response => ret (Normal response)
  | Throw error =>
      throwTyped (executeRequest_catch url timeout options attempt error)
  end.

Definition executeRequest (options : RequestOptions) (attempt : Z)
    : M (Completion HttpResponse) :=
  match buildUrl (baseUrl client) (path options) (params options) with
  | None => ret (Throw (ThrownError (mkPlainError "TypeError" "Invalid URL")))
  | Some url =>
      let timeout := default (timeout client) (optTimeout options) in
      outcome <- fetch ;;
      settle url timeout options attempt outcome
  end.

(** The suspension between two attempts, for a retryable typed error. *)
Definition backOff (accountId : string) (attempt : Z) (error : UnipileError)
    : M unit :=
  match errClass error with
  | RateLimitErrorClass resetAt _ =>
      recordRateLimitError clock baseDelayMs maxDelayMs accountId resetAt ;;;
      retryAfter <- getRetryAfterMs resetAt ;;
      if 0 <? retryAfter then sleep retryAfter
      else
        backoff <- getCurrentBackoff baseDelayMs accountId ;;
        sleep backoff
  | _ =>
      let delay := Z.min (1000 * 2 ^ (attempt - 1)) 30000 in
      sleep delay
  end.

(** The [for] loop of [request], with [remaining] iterations to go. *)
Fixpoint attempts (options : RequestOptions) (accountId : string)
    (maxAttempts : Z) (remaining : nat) (attempt : Z)
    (lastError : option Thrown) : M (Completion HttpResponse) :=
  match remaining with
  | O =>
      ret (Throw (default
                    (ThrownTyped (new_UnipileError "Request failed after retries"
                                    UNKNOWN emptyContext false))
                    lastError))
  | S remaining' =>
      r <- executeRequest options attempt ;;
      match r with
      | Normal response =>
          recordSuccess clock baseDelayMs accountId ;;;
          ret (Normal response)
      | Throw error =>
          let lastError' :=
            match error with
            | ThrownValue rendering =>
                ThrownError (mkPlainError "Error" rendering)
            | _ => error
            end in
          match error with
          | ThrownTyped e =>
              if negb (isRetryable e) || (maxAttempts <=? attempt) then
                ret (Throw error)
              else
                backOff accountId attempt e ;;;
                attempts options accountId maxAttempts remaining'
                         (attempt + 1) (Some lastError')
          | _ => ret (Throw error)
          end
      end
  end.

(** The rate limit check that opens [request]: [Some e] is the
    [RateLimitError] thrown when the limiter asks for a wait and retry is
    disabled; otherwise the call sleeps for the wait, if any, and goes on. *)
Definition awaitRateLimit (accountId : string) : M (option UnipileError) :=
  waitTime <- shouldWait clock baseDelayMs accountId ;;
  if 0 <? waitTime then
    if enableRetry client then sleep waitTime ;;; ret None
    else
      now <- DateNow clock ;;
      ret (Some (new_RateLimitError
                   ("Rate limit active, retry after " +:+ pretty waitTime +:+ "ms")
                   (mkContext None None None None (Some accountId) None
                              (Some (now + waitTime)) None)))
  else ret None.

Definition request (options : RequestOptions) : M (Completion HttpResponse) :=
  let accountId := default "global" (accountId options) in
  blocked <- awaitRateLimit accountId ;;
  match blocked with
  | Some e => throwTyped e
  | None =>
      let maxAttempts := if enableRetry client then maxRetries client else 1 in
      attempts options accountId maxAttempts (Z.to_nat maxAttempts) 1 None
  end.

End HttpClient.

(** ** UnipileClient.fromEnv *)

Record UnipileClient := mkUnipileClient {
  httpClient : HttpClient;
}.

Definition new_UnipileClient (config : UnipileConfig) : UnipileClient :=
  mkUnipileClient (new_HttpClient config).

(** [process.env] is a map from variable names to strings. *)
Definition fromEnv (env : gmap string string) : Completion UnipileClient :=
  let dsn := env !! "UNIPILE_DSN" in
  let apiKey := env !! "UNIPILE_API_KEY" in
  let useHttp := bool_decide (env !! "UNIPILE_USE_HTTP" = Some "true") in
  match dsn with
  | None | Some "" =>
      Throw (ThrownError
               (mkPlainError "Error" "UNIPILE_DSN environment variable is required"))
  | Some dsn =>
      match apiKey with
      | None | Some "" =>
          Throw (ThrownError
                   (mkPlainError "Error"
                      "UNIPILE_API_KEY environment variable is required"))
      | Some apiKey =>
          Normal (new_UnipileClient
                    (mkConfig dsn apiKey (Some useHttp) None None None None None))
      end
  end.

(** ** Vocabulary of the properties *)

(** The state [getAccountState] hands out for an account: the one on record,
    or a fresh one. *)
Definition stateOf (baseDelayMs : Z) (w : World) (accountId : string)
    : AccountRateLimitState :=
  default (freshState baseDelayMs) (accountStates w !! accountId).

(** What the backoff branch of [shouldWait] yields as [v] for a state [s]
    when the clock reads [now]. *)
Definition backoffResult (s : AccountRateLimitState) (now v : Z) : Prop :=
  (forall l, 0 < consecutiveErrors s -> lastRequestAt s = Some l ->
     v = Z.max 0 (currentBackoffMs s - (now - l)))
  /\ (consecutiveErrors s <= 0 \/ lastRequestAt s = None -> v = 0).

(** The state that [recordRateLimitError] leaves for the account. *)
Definition afterError (maxDelayMs : Z) (s : AccountRateLimitState)
    (resetAt' : option Z) (now : Z) : AccountRateLimitState :=
  match resetAt' with
  | Some r =>
      mkState (consecutiveErrors s + 1) (Some r) (currentBackoffMs s) (Some now)
  | None =>
      mkState (consecutiveErrors s + 1) (resetAt s)
              (Z.min (currentBackoffMs s * 2) maxDelayMs) (Some now)
  end.

(** The invariant of the data model on one account state. *)
Definition backoffInvariant (baseDelayMs maxDelayMs : Z)
    (s : AccountRateLimitState) : Prop :=
  baseDelayMs <= currentBackoffMs s <= maxDelayMs
  /\ (consecutiveErrors s = 0 -> currentBackoffMs s = baseDelayMs).

(** The invariant together with what makes it inductive: the error counter
    is never negative. *)
Definition stateOK (baseDelayMs maxDelayMs : Z)
    (s : AccountRateLimitState) : Prop :=
  0 <= consecutiveErrors s /\ backoffInvariant baseDelayMs maxDelayMs s.

(** Every state on record is [stateOK]. *)
Definition statesOK (baseDelayMs maxDelayMs : Z) (w : World) : Prop :=
  map_Forall (fun _ s => stateOK baseDelayMs maxDelayMs s) (accountStates w).

(** The public methods of a [RateLimiter], as calls a client can make. *)
Inductive LimiterCall :=
  | CallShouldWait (accountId : string)
  | CallRecordSuccess (accountId : string)
  | CallRecordRateLimitError (accountId : string) (resetAt : option Z)
  | CallReset (accountId : string)
  | CallResetAll
  | CallGetCurrentBackoff (accountId : string)
  | CallGetConsecutiveErrors (accountId : string).

Section Calls.

Variable clock : nat -> Z.
Variables baseDelayMs maxDelayMs : Z.

Definition perform (c : LimiterCall) : M unit :=
  match c with
  | CallShouldWait a => shouldWait clock baseDelayMs a ;;; ret tt
  | CallRecordSuccess a => recordSuccess clock baseDelayMs a
  | CallRecordRateLimitError a r =>
      recordRateLimitError clock baseDelayMs maxDelayMs a r
  | CallReset a => reset a
  | CallResetAll => resetAll
  | CallGetCurrentBackoff a => getCurrentBackoff baseDelayMs a ;;; ret tt
  | CallGetConsecutiveErrors a => getConsecutiveErrors baseDelayMs a ;;; ret tt
  end.

Fixpoint performAll (cs : list LimiterCall) : M unit :=
  match cs with
  | [] => ret tt
  | c :: cs' => perform c ;;; performAll cs'
  end.

End Calls.

(** [n] consecutive runs of [m]. *)
Fixpoint times (n : nat) (m : M unit) : M unit :=
  match n with
  | O => ret tt
  | S n' => m ;;; times n' m
  end.

(** A limiter that has not been used yet. *)
Definition newWorld : World := mkWorld ∅ 0 0 [].

(** A run of calls that mixes errors with and without a reset time. *)
Definition sampleCalls : list LimiterCall :=
  [CallRecordRateLimitError "a" None; CallShouldWait "a";
   CallRecordRateLimitError "a" (Some 5000); CallGetCurrentBackoff "b";
   CallRecordRateLimitError "a" None; CallRecordRateLimitError "a" None].

(** An operation is quiet when it does not call the transport. *)
Definition quiet {A} (m : M A) : Prop :=
  forall w, transportCalls (snd (m w)) = transportCalls w.

(** [Retry-After] gives nothing: it is absent, or it parses neither as an
    integer nor as a date. *)
Definition retryAfterUnusable (dateParse : string -> option Z)
    (headers : Headers) : Prop :=
  headers !! "retry-after" = None
  \/ exists v, headers !! "retry-after" = Some v
               /\ parseInt v = None /\ dateParse v = None.

(** The time values of valid dates ([TimeClip]): at most 8.64e15 ms away
    from the epoch.  [Date.now()] and the time value of a parsed date lie
    in this range, and [new Date(t)] is the instant [t] exactly when [t]
    does. *)
Definition validTime (t : Z) : Prop :=
  -8640000000000000 <= t <= 8640000000000000.

(** The X-RateLimit-Reset value read the way the specification words it:
    below 10,000,000,000 it is seconds, at or above it is milliseconds. *)
Definition resetInstant_stated (timestamp : Z) : Z :=
  if timestamp <? 10000000000 then timestamp * 1000 else timestamp.

(** A completion that throws a typed error of the given category and
    retryability. *)
Definition throwsTyped {A} (r : Completion A) (c : ErrorCategory)
    (retryable : bool) : Prop :=
  exists e, r = Throw (ThrownTyped e) /\ category e = c /\ isRetryable e = retryable.

(** A completion that carries no bare value: it is normal or throws a typed
    error. *)
Definition neverBare {A} (r : Completion A) : Prop :=
  (exists a, r = Normal a) \/ (exists e, r = Throw (ThrownTyped e)).

(** The connectivity markers that [executeRequest] looks for in a message. *)
Definition isConnectivityFailure (e : PlainError) : bool :=
  includes "ECONNREFUSED" (errMessage e)
  || includes "ENOTFOUND" (errMessage e)
  || includes "network" (errMessage e).

(** ** Sample inputs *)

Definition sampleClient (retry : bool) (retries : Z) : HttpClient :=
  new_HttpClient
    (mkConfig "api.example.com:443" "test-key" None None (Some retry)
              None None (Some retries)).

Definition sampleOptions : RequestOptions :=
  mkOptions GET "/test" None None None (Some "acc-1") None.

Definition sampleBuildUrl (base path : string)
    (params : option (list (string * option ParamValue))) : option string :=
  Some (base +:+ path).

Definition badRequest : Response :=
  mkResponse 400 "https://api.example.com/test" ∅
             (Normal (JObject [("message", JString "Bad request")]))
             (Normal "").

Definition alwaysBadRequest : nat -> FetchOutcome :=
  fun _ => Resolved badRequest.

Definition badRequestError : UnipileError :=
  new_ValidationError "Bad request" []
    (mkContext (Some 400) (Some "https://api.example.com/test") (Some GET)
               (Some (JObject [("message", JString "Bad request")]))
               (Some "acc-1") (Some 1) None None).

(** A clock that advances by one millisecond per reading. *)
Definition tick : nat -> Z := fun k => Z.of_nat k.

(** A transport that answers from a script, one entry per call. *)
Definition scripted (script : list FetchOutcome) : nat -> FetchOutcome :=
  fun k => nth k script (Rejected (ThrownValue "script exhausted")).

Definition answer (status : Z) (headers : Headers) (body : Json) : FetchOutcome :=
  Resolved (mkResponse status "https://api.example.com/test" headers
                       (Normal body) (Normal "")).

Definition successBody : Json := JObject [("success", JBool true)].

Definition jsonHeaders : Headers := {[ "content-type" := "application/json" ]}.

(** A limiter that has just been told to hold ["acc-1"] back until 5000. *)
Definition heldBack : World :=
  snd (recordRateLimitError (fun _ => 0) 300000 7200000 "acc-1" (Some 5000)
         newWorld).

(** ** Further vocabulary: the limiter over time *)

(** A clock that never runs backwards. *)
Definition monotone (clock : nat -> Z) : Prop :=
  forall i j, (i <= j)%nat -> clock i <= clock j.

(** Every [lastRequestAt] on record is a clock reading already taken. *)
Definition stampsPast (clock : nat -> Z) (w : World) : Prop :=
  map_Forall
    (fun _ s => forall l, lastRequestAt s = Some l ->
                exists j, (j < clockReads w)%nat /\ l = clock j)
    (accountStates w).

(** The limiter after a run of calls on a new one. *)
Definition limiterAfterCalls (clock : nat -> Z) (baseDelayMs maxDelayMs : Z)
    (calls : list LimiterCall) : World :=
  snd (performAll clock baseDelayMs maxDelayMs calls newWorld).

(** A run of rate limit errors for one account, each with its own optional
    reset time. *)
Fixpoint recordErrors (clock : nat -> Z) (baseDelayMs maxDelayMs : Z)
    (accountId : string) (resets : list (option Z)) : M unit :=
  match resets with
  | [] => ret tt
  | r :: rest =>
      recordRateLimitError clock baseDelayMs maxDelayMs accountId r ;;;
      recordErrors clock baseDelayMs maxDelayMs accountId rest
  end.

(** The limiter after [sampleCalls], at base 1000 and maximum 10000. *)
Definition sampleLimiter : World :=
  limiterAfterCalls (fun k => Z.of_nat k) 1000 10000 sampleCalls.


(** ** Further vocabulary: the dispatcher *)

(** [m] leaves the observation [f] of the world as it was. *)
Definition preserves {A B} (f : World -> B) (m : M A) : Prop :=
  forall w, f (snd (m w)) = f w.

(** The wait before the retry that follows attempt [attempt], for a
    retryable error that is no rate limit error. *)
Definition retryDelay (attempt : Z) : Z :=
  Z.min (1000 * 2 ^ (attempt - 1)) 30000.

(** The waits after attempts [1] to [n], most recent first, as [slept]
    records them. *)
Fixpoint retryDelays (n : nat) : list Z :=
  match n with
  | O => []
  | S n' => retryDelay (Z.of_nat n) :: retryDelays n'
  end.

(** A rejection with something that is not a typed error. *)
Definition untypedRejection (o : FetchOutcome) : Prop :=
  match o with
  | Rejected (ThrownError _) | Rejected (ThrownValue _) => True
  | _ => False
  end.

(** What a rejection threw. *)
Definition rejectionOf (o : FetchOutcome) : Thrown :=
  match o with
  | Rejected t => t
  | Resolved _ => ThrownValue ""
  end.


(** [UnipileClient.resetRateLimit] and [UnipileClient.resetAllRateLimits]:
    the limiter of the client's [HttpClient] is the one in the world. *)
Definition resetRateLimit (accountId : string) : M unit := reset accountId.
Definition resetAllRateLimits : M unit := resetAll.

(** The waits after attempts [attempt] to [attempt + remaining - 1], most
    recent first. *)
Fixpoint delaysBetween (attempt : Z) (remaining : nat) : list Z :=
  match remaining with
  | O => []
  | S remaining' => delaysBetween (attempt + 1) remaining' ++ [retryDelay attempt]
  end.

(** An error object that is no [RateLimitError]. *)
Definition notRateLimitError (e : UnipileError) : Prop :=
  forall r a, errClass e <> RateLimitErrorClass r a.

(** A 429 with [Retry-After: 0] followed by a 200, and a lone 429. *)
Definition rateLimitedThenOk : nat -> FetchOutcome :=
  scripted [answer 429 {[ "retry-after" := "0" ]} JNull;
            answer 200 jsonHeaders successBody].

Definition rateLimitedOnce : nat -> FetchOutcome :=
  scripted [answer 429 {[ "retry-after" := "60" ]} JNull].


(** A transport that is never reached. *)
Definition alwaysOffline : nat -> FetchOutcome :=
  fun _ => Rejected (ThrownError (mkPlainError "TypeError" "fetch failed")).

(** * Properties *)

(** Unfolds the monadic plumbing of the limiter's methods. *)
Ltac run_limiter :=
  unfold shouldWait, recordSuccess, recordRateLimitError, reset, resetAll,
         getCurrentBackoff, getConsecutiveErrors, checkResetAt, checkBackoff,
         getAccountState, mutate, DateNow, getStates, modifyStates, sleep,
         bind, ret in *;
  simpl in *.

Section RateLimiterFacts.

Variable clock : nat -> Z.
Variables baseDelayMs maxDelayMs : Z.

Implicit Types (w : World) (accountId : string) (s : AccountRateLimitState).

Lemma stateOf_Some w accountId s :
  accountStates w !! accountId = Some s -> stateOf baseDelayMs w accountId = s.
Proof. unfold stateOf. now intros ->. Qed.

Lemma stateOf_None w accountId :
  accountStates w !! accountId = None ->
  stateOf baseDelayMs w accountId = freshState baseDelayMs.
Proof. unfold stateOf. now intros ->. Qed.

(** [getAccountState] returns [stateOf] and leaves it on record. *)
Lemma getAccountState_spec w accountId :
  let '(s, w') := getAccountState baseDelayMs accountId w in
  s = stateOf baseDelayMs w accountId
  /\ accountStates w' = <[accountId := s]> (accountStates w)
  /\ clockReads w' = clockReads w
  /\ transportCalls w' = transportCalls w
  /\ slept w' = slept w.
Proof.
  unfold stateOf. run_limiter.
  destruct (accountStates w !! accountId) as [s|] eqn:E; simpl.
  - repeat split; try reflexivity. now rewrite insert_id.
  - repeat split; reflexivity.
Qed.

(** The wait that the backoff branch of [shouldWait] computes from a state
    at clock reading [now]. *)
Lemma checkBackoff_value s w :
  let now := clock (clockReads w) in
  let v := fst (checkBackoff clock s w) in
  accountStates (snd (checkBackoff clock s w)) = accountStates w
  /\ 0 <= v
  /\ (forall l, 0 < consecutiveErrors s -> lastRequestAt s = Some l ->
        v = Z.max 0 (currentBackoffMs s - (now - l)))
  /\ (consecutiveErrors s <= 0 \/ lastRequestAt s = None -> v = 0).
Proof.
  run_limiter.
  destruct (0 <? consecutiveErrors s) eqn:Hc;
    [apply Z.ltb_lt in Hc | apply Z.ltb_ge in Hc];
    [destruct (lastRequestAt s) as [l|] eqn:Hl;
     [destruct (0 <? _) eqn:Hw;
      [apply Z.ltb_lt in Hw | apply Z.ltb_ge in Hw] | ] | ];
    simpl; (split; [reflexivity | split; [lia | split]]);
    try (intros l' ? [= <-]; lia);
    try (intros l' ? [=]; lia);
    try (intros [?|?]; (lia || discriminate));
    try (intros; lia).
Qed.

(** [shouldWait] in closed form: what is returned and what world is left,
    by the [resetAt] of the account's state. *)
Lemma shouldWait_unfold accountId w :
  let s := stateOf baseDelayMs w accountId in
  let now := clock (clockReads w) in
  let put s' reads :=
    mkWorld (<[accountId := s']> (accountStates w)) reads
            (transportCalls w) (slept w) in
  shouldWait clock baseDelayMs accountId w =
    match resetAt s with
    | Some r =>
        if 0 <? r - now then (r - now, put s (S (clockReads w)))
        else checkBackoff clock s (put (set_resetAt None s) (S (clockReads w)))
    | None => checkBackoff clock s (put s (clockReads w))
    end.
Proof.
  intros s now put. subst put.
  unfold shouldWait, bind.
  pose proof (getAccountState_spec w accountId) as G.
  destruct (getAccountState baseDelayMs accountId w) as [s0 w0].
  destruct G as (-> & Hm & Hc & Ht & Hs). fold s.
  unfold checkResetAt, bind, ret, DateNow, mutate, modifyStates.
  destruct (resetAt s) as [r|] eqn:Hr.
  - rewrite Hc. fold now. destruct (0 <? r - now); simpl.
    + now rewrite Hm, Ht, Hs.
    + now rewrite Hm, Ht, Hs, alter_insert_eq.
  - destruct w0; simpl in *. now subst.
Qed.

(** C1. [shouldWait] never returns a negative wait.  When the account has a
    [resetAt] that lies after the clock reading, the remaining time until
    [resetAt] is returned at once: the state is untouched and the clock is
    not read a second time, so the backoff condition is not evaluated.
    When [resetAt] has passed it is cleared, and when there is none the
    state is as it was; in both cases the result is decided by the backoff
    condition alone: with [consecutiveErrors > 0] and a [lastRequestAt] on
    record it is the part of [currentBackoffMs] that has not elapsed since
    [lastRequestAt] (0 if all of it has), and 0 otherwise. *)
Theorem C1_shouldWait_cases accountId w :
  let s := stateOf baseDelayMs w accountId in
  let now1 := clock (clockReads w) in
  let v := fst (shouldWait clock baseDelayMs accountId w) in
  let w' := snd (shouldWait clock baseDelayMs accountId w) in
  0 <= v
  /\ (forall r, resetAt s = Some r -> 0 < r - now1 ->
        v = r - now1
        /\ accountStates w' = accountStates w
        /\ clockReads w' = S (clockReads w))
  /\ (forall r, resetAt s = Some r -> r - now1 <= 0 ->
        accountStates w' = <[accountId := set_resetAt None s]> (accountStates w)
        /\ backoffResult s (clock (S (clockReads w))) v)
  /\ (resetAt s = None ->
        accountStates w' = <[accountId := s]> (accountStates w)
        /\ backoffResult s now1 v).
Proof.
  intros s now1 v w'. subst v w'.
  rewrite (shouldWait_unfold accountId w). fold s now1.
  destruct (resetAt s) as [r|] eqn:Hr.
  - destruct (0 <? r - now1) eqn:Hw;
      [apply Z.ltb_lt in Hw | apply Z.ltb_ge in Hw].
    + simpl. split; [lia|]. split; [|split]; [| intros ? [= <-]; lia | discriminate].
      intros ? [= <-] _. split; [reflexivity|]. split; [|reflexivity].
      apply insert_id. subst s. unfold stateOf in *.
      destruct (accountStates w !! accountId); [reflexivity | discriminate].
    + match goal with |- context [checkBackoff clock s ?w1] =>
        destruct (checkBackoff_value s w1) as (Bm & Bv & B1 & B2) end.
      split; [exact Bv|].
      split; [|split]; [intros ? [= <-]; lia | | discriminate].
      intros ? [= <-] _. rewrite Bm. split; [reflexivity | split; assumption].
  - match goal with |- context [checkBackoff clock s ?w1] =>
      destruct (checkBackoff_value s w1) as (Bm & Bv & B1 & B2) end.
    split; [exact Bv|]. split; [|split]; [discriminate | discriminate |].
    intros _. rewrite Bm. split; [reflexivity | split; assumption].
Qed.

(** [recordSuccess] in closed form. *)
Lemma recordSuccess_spec w accountId :
  let w' := snd (recordSuccess clock baseDelayMs accountId w) in
  accountStates w' =
    <[accountId := mkState 0 None baseDelayMs (Some (clock (clockReads w)))]>
      (accountStates w)
  /\ clockReads w' = S (clockReads w)
  /\ transportCalls w' = transportCalls w
  /\ slept w' = slept w.
Proof.
  unfold recordSuccess, bind.
  pose proof (getAccountState_spec w accountId) as G.
  destruct (getAccountState baseDelayMs accountId w) as [s0 w0].
  destruct G as (_ & Hm & Hc & Ht & Hs).
  unfold mutate, modifyStates, DateNow; simpl.
  rewrite Hm, Hc, Ht, Hs, !alter_insert_eq. repeat split.
Qed.

Lemma recordRateLimitError_spec w accountId resetAt' :
  let w' := snd (recordRateLimitError clock baseDelayMs maxDelayMs
                   accountId resetAt' w) in
  accountStates w' =
    <[accountId := afterError maxDelayMs (stateOf baseDelayMs w accountId) resetAt'
                     (clock (clockReads w))]> (accountStates w)
  /\ clockReads w' = S (clockReads w)
  /\ transportCalls w' = transportCalls w
  /\ slept w' = slept w.
Proof.
  unfold recordRateLimitError, bind.
  pose proof (getAccountState_spec w accountId) as G.
  destruct (getAccountState baseDelayMs accountId w) as [s0 w0].
  destruct G as (-> & Hm & Hc & Ht & Hs).
  unfold mutate, modifyStates, DateNow; simpl.
  destruct resetAt' as [r|]; simpl;
    rewrite Hm, Hc, Ht, Hs, !alter_insert_eq; repeat split.
Qed.

Lemma getCurrentBackoff_spec w accountId :
  getCurrentBackoff baseDelayMs accountId w =
    (currentBackoffMs (stateOf baseDelayMs w accountId),
     mkWorld (<[accountId := stateOf baseDelayMs w accountId]> (accountStates w))
             (clockReads w) (transportCalls w) (slept w)).
Proof.
  unfold getCurrentBackoff, bind, ret.
  pose proof (getAccountState_spec w accountId) as G.
  destruct (getAccountState baseDelayMs accountId w) as [s0 w0].
  destruct G as (-> & Hm & Hc & Ht & Hs). destruct w0; simpl in *. congruence.
Qed.

Lemma getConsecutiveErrors_spec w accountId :
  getConsecutiveErrors baseDelayMs accountId w =
    (consecutiveErrors (stateOf baseDelayMs w accountId),
     mkWorld (<[accountId := stateOf baseDelayMs w accountId]> (accountStates w))
             (clockReads w) (transportCalls w) (slept w)).
Proof.
  unfold getConsecutiveErrors, bind, ret.
  pose proof (getAccountState_spec w accountId) as G.
  destruct (getAccountState baseDelayMs accountId w) as [s0 w0].
  destruct G as (-> & Hm & Hc & Ht & Hs). destruct w0; simpl in *. congruence.
Qed.

(** C9. Right after [recordSuccess] for an account, [shouldWait] for that
    account returns 0, whatever the state was before and whatever the
    clock reads. *)
Theorem C9_no_wait_after_success w accountId :
  fst (shouldWait clock baseDelayMs accountId
         (snd (recordSuccess clock baseDelayMs accountId w))) = 0.
Proof.
  pose proof (recordSuccess_spec w accountId) as (Hm & _).
  set (w1 := snd (recordSuccess clock baseDelayMs accountId w)) in *.
  rewrite (shouldWait_unfold accountId w1).
  assert (Hs : stateOf baseDelayMs w1 accountId =
               mkState 0 None baseDelayMs (Some (clock (clockReads w)))).
  { unfold stateOf. rewrite Hm, lookup_insert_eq. reflexivity. }
  rewrite Hs. reflexivity.
Qed.

Lemma stateOf_after_insert w' w accountId s :
  accountStates w' = <[accountId := s]> (accountStates w) ->
  stateOf baseDelayMs w' accountId = s.
Proof. unfold stateOf. intros ->. now rewrite lookup_insert_eq. Qed.

(** One [recordRateLimitError] without a reset time, seen through the
    accessors. *)
Lemma recordRateLimitError_None_accessors w accountId :
  let w' := snd (recordRateLimitError clock baseDelayMs maxDelayMs
                   accountId None w) in
  fst (getCurrentBackoff baseDelayMs accountId w') =
    Z.min (fst (getCurrentBackoff baseDelayMs accountId w) * 2) maxDelayMs
  /\ fst (getConsecutiveErrors baseDelayMs accountId w') =
       fst (getConsecutiveErrors baseDelayMs accountId w) + 1.
Proof.
  intros w'; subst w'. rewrite !getCurrentBackoff_spec, !getConsecutiveErrors_spec. simpl.
  destruct (recordRateLimitError_spec w accountId None) as (Hm & _).
  rewrite (stateOf_after_insert _ _ _ _ Hm). simpl. split; reflexivity.
Qed.

Lemma times_S n (m : M unit) w :
  times (S n) m w = times n m (snd (m w)).
Proof. simpl. unfold bind. now destruct (m w). Qed.

(** [n] calls in a row double the backoff [n] times, under the cap. *)
Lemma times_recordRateLimitError_backoff n : forall w accountId,
  fst (getCurrentBackoff baseDelayMs accountId
         (snd (times n (recordRateLimitError clock baseDelayMs maxDelayMs
                          accountId None) w))) =
  Nat.iter n (fun b => Z.min (b * 2) maxDelayMs)
           (fst (getCurrentBackoff baseDelayMs accountId w)).
Proof.
  induction n as [|n IH]; intros w accountId.
  - reflexivity.
  - rewrite times_S, IH, Nat.iter_succ_r.
    now destruct (recordRateLimitError_None_accessors w accountId) as [-> _].
Qed.

End RateLimiterFacts.

Lemma capped_doubling_from_cap k :
  Nat.iter k (fun b => Z.min (b * 2) 10000) 10000 = 10000.
Proof. induction k as [|k IH]; [reflexivity|]. simpl. rewrite IH. reflexivity. Qed.

Lemma capped_doubling_sequence n :
  Nat.iter n (fun b => Z.min (b * 2) 10000) 1000 =
  match n with
  | 0%nat => 1000 | 1%nat => 2000 | 2%nat => 4000 | 3%nat => 8000
  | _ => 10000
  end.
Proof.
  do 4 (destruct n as [|n]; [reflexivity|]).
  rewrite !Nat.iter_succ_r. apply capped_doubling_from_cap.
Qed.

(** C2. A [recordRateLimitError] without a reset time sets the backoff, as
    [getCurrentBackoff] reports it, to [min (2 * previous) maxDelay] and adds
    one to [consecutiveErrors].  With base 1000 and maximum 10000, starting
    from the base backoff, [n] such calls in a row leave 2000, 4000, 8000 and
    then 10000 for every larger [n].  With a reset time, that time is stored
    as it is, the backoff stays what it was, and [consecutiveErrors] is
    incremented all the same. *)
Theorem C2_recordRateLimitError_backoff (clock : nat -> Z) :
  (forall baseDelay maxDelay w accountId,
     let w' := snd (recordRateLimitError clock baseDelay maxDelay
                      accountId None w) in
     fst (getCurrentBackoff baseDelay accountId w') =
       Z.min (2 * fst (getCurrentBackoff baseDelay accountId w)) maxDelay
     /\ fst (getConsecutiveErrors baseDelay accountId w') =
          fst (getConsecutiveErrors baseDelay accountId w) + 1)
  /\ (forall w accountId n,
        fst (getCurrentBackoff 1000 accountId w) = 1000 ->
        fst (getCurrentBackoff 1000 accountId
               (snd (times n (recordRateLimitError clock 1000 10000
                                accountId None) w))) =
        match n with
        | 0%nat => 1000 | 1%nat => 2000 | 2%nat => 4000 | 3%nat => 8000
  | _ => 10000
        end)
  /\ (forall baseDelay maxDelay w accountId r,
        let w' := snd (recordRateLimitError clock baseDelay maxDelay
                         accountId (Some r) w) in
        resetAt (stateOf baseDelay w' accountId) = Some r
        /\ fst (getCurrentBackoff baseDelay accountId w') =
             fst (getCurrentBackoff baseDelay accountId w)
        /\ fst (getConsecutiveErrors baseDelay accountId w') =
             fst (getConsecutiveErrors baseDelay accountId w) + 1).
Proof.
  split; [|split].
  - intros baseDelay maxDelay w accountId w'.
    destruct (recordRateLimitError_None_accessors clock baseDelay maxDelay
                w accountId) as [H1 H2].
    fold w' in H1, H2. rewrite H1, H2. split; [f_equal; lia | reflexivity].
  - intros w accountId n H0.
    rewrite times_recordRateLimitError_backoff, H0.
    apply capped_doubling_sequence.
  - intros baseDelay maxDelay w accountId r w'.
    destruct (recordRateLimitError_spec clock baseDelay maxDelay w accountId
                (Some r)) as (Hm & _).
    fold w' in Hm.
    rewrite !getCurrentBackoff_spec, !getConsecutiveErrors_spec. simpl.
    rewrite (stateOf_after_insert baseDelay _ _ _ _ Hm). simpl. repeat split.
Qed.

(** At base 1000 and maximum 10000 the fifth error in a row of a new account
    leaves the backoff at the cap. *)
Lemma C2_backoff_sequence_witness :
  fst (getCurrentBackoff 1000 "account-1" newWorld) = 1000
  /\ fst (getCurrentBackoff 1000 "account-1"
            (snd (times 5 (recordRateLimitError (fun _ => 0) 1000 10000
                             "account-1" None) newWorld))) = 10000.
Proof.
  split; [reflexivity|].
  exact (proj1 (proj2 (C2_recordRateLimitError_backoff (fun _ => 0)))
           newWorld "account-1" 5%nat eq_refl).
Defined.

Section LimiterInvariant.

Variable clock : nat -> Z.
Variables baseDelayMs maxDelayMs : Z.

Implicit Types (w : World) (accountId : string) (s : AccountRateLimitState).

(** What [shouldWait] does to the states on record: the account's state is
    put back with at most its [resetAt] cleared, and cleared only when it
    had passed. *)
Lemma shouldWait_frame w accountId :
  let s := stateOf baseDelayMs w accountId in
  exists s',
    accountStates (snd (shouldWait clock baseDelayMs accountId w)) =
      <[accountId := s']> (accountStates w)
    /\ consecutiveErrors s' = consecutiveErrors s
    /\ currentBackoffMs s' = currentBackoffMs s
    /\ lastRequestAt s' = lastRequestAt s
    /\ (s' = s
        \/ resetAt s' = None
           /\ exists r, resetAt s = Some r /\ r <= clock (clockReads w)).
Proof.
  intros s.
  rewrite (shouldWait_unfold clock baseDelayMs accountId w). fold s.
  destruct (resetAt s) as [r|] eqn:Hr.
  - destruct (0 <? r - clock (clockReads w)) eqn:Hw;
      [apply Z.ltb_lt in Hw | apply Z.ltb_ge in Hw].
    + exists s. simpl. repeat split. now left.
    + match goal with |- context [checkBackoff clock s ?w1] =>
        destruct (checkBackoff_value clock s w1) as (-> & _) end.
      exists (set_resetAt None s). simpl. repeat split.
      right. split; [reflexivity|]. exists r. split; [reflexivity | lia].
  - match goal with |- context [checkBackoff clock s ?w1] =>
      destruct (checkBackoff_value clock s w1) as (-> & _) end.
    exists s. simpl. repeat split. now left.
Qed.

(** C8. The three read operations leave the states on record as they were,
    except that the account asked about is on record afterwards: with the
    state it had, or with a fresh one if it had none.  [shouldWait] may in
    addition clear that account's [resetAt], and only when it had passed;
    [consecutiveErrors], [currentBackoffMs] and [lastRequestAt] are never
    changed, and no other account is touched. *)
Theorem C8_reads_frame w accountId :
  let s := stateOf baseDelayMs w accountId in
  let afterBackoff := snd (getCurrentBackoff baseDelayMs accountId w) in
  let afterErrors := snd (getConsecutiveErrors baseDelayMs accountId w) in
  let afterWait := snd (shouldWait clock baseDelayMs accountId w) in
  (accountStates w !! accountId = None -> s = freshState baseDelayMs)
  /\ (forall s0, accountStates w !! accountId = Some s0 -> s = s0)
  /\ accountStates afterBackoff = <[accountId := s]> (accountStates w)
  /\ accountStates afterErrors = <[accountId := s]> (accountStates w)
  /\ (exists s',
        accountStates afterWait = <[accountId := s']> (accountStates w)
        /\ consecutiveErrors s' = consecutiveErrors s
        /\ currentBackoffMs s' = currentBackoffMs s
        /\ lastRequestAt s' = lastRequestAt s
        /\ (resetAt s' = resetAt s
            \/ resetAt s' = None
               /\ exists r, resetAt s = Some r /\ r <= clock (clockReads w)))
  /\ (forall other, other <> accountId ->
        accountStates afterBackoff !! other = accountStates w !! other
        /\ accountStates afterErrors !! other = accountStates w !! other
        /\ accountStates afterWait !! other = accountStates w !! other).
Proof.
  intros s afterBackoff afterErrors afterWait.
  subst afterBackoff afterErrors afterWait.
  rewrite getCurrentBackoff_spec, getConsecutiveErrors_spec. simpl. fold s.
  destruct (shouldWait_frame w accountId) as (s' & Hm & H1 & H2 & H3 & H4).
  fold s in H1, H2, H3, H4.
  split; [apply stateOf_None|]. split; [intros s0; apply stateOf_Some|].
  split; [reflexivity|]. split; [reflexivity|]. split.
  - exists s'. repeat split; try assumption.
    destruct H4 as [->|H4]; [now left | now right].
  - intros other Hne. rewrite Hm, !lookup_insert_ne by congruence.
    repeat split.
Qed.

End LimiterInvariant.

Section BackoffInvariant.

Variable clock : nat -> Z.
Variables baseDelayMs maxDelayMs : Z.
Hypothesis base_nonneg : 0 <= baseDelayMs.
Hypothesis base_le_max : baseDelayMs <= maxDelayMs.

Implicit Types (w : World) (accountId : string) (s : AccountRateLimitState).

Local Abbreviation OK := (statesOK baseDelayMs maxDelayMs).

Lemma freshState_OK : stateOK baseDelayMs maxDelayMs (freshState baseDelayMs).
Proof. unfold stateOK, backoffInvariant, freshState; simpl. lia. Qed.

Lemma stateOf_OK w accountId :
  OK w -> stateOK baseDelayMs maxDelayMs (stateOf baseDelayMs w accountId).
Proof.
  intros H. unfold stateOf.
  destruct (accountStates w !! accountId) as [s|] eqn:E; simpl.
  - exact (H _ _ E).
  - apply freshState_OK.
Qed.

Lemma afterError_OK s resetAt' now :
  stateOK baseDelayMs maxDelayMs s ->
  stateOK baseDelayMs maxDelayMs (afterError maxDelayMs s resetAt' now).
Proof.
  unfold stateOK, backoffInvariant.
  intros (Hc & Hb & _). destruct resetAt'; simpl; lia.
Qed.

Lemma perform_OK c w :
  OK w -> OK (snd (perform clock baseDelayMs maxDelayMs c w)).
Proof.
  intros H. pose proof (fun a => stateOf_OK w a H) as HS.
  destruct c as [a|a|a r|a| |a|a]; simpl; unfold bind.
  - destruct (shouldWait_frame clock baseDelayMs w a)
      as (s' & Hm & H1 & H2 & H3 & _).
    destruct (shouldWait clock baseDelayMs a w) as [v w1]; simpl in *.
    unfold statesOK. rewrite Hm. apply map_Forall_insert_2; [|exact H].
    specialize (HS a). unfold stateOK, backoffInvariant in HS |- *.
    rewrite H1, H2. exact HS.
  - destruct (recordSuccess_spec clock baseDelayMs w a) as (Hm & _).
    unfold statesOK. rewrite Hm. apply map_Forall_insert_2; [|exact H].
    unfold stateOK, backoffInvariant; simpl. lia.
  - destruct (recordRateLimitError_spec clock baseDelayMs maxDelayMs w a r)
      as (Hm & _).
    unfold statesOK. rewrite Hm. apply map_Forall_insert_2; [|exact H].
    apply afterError_OK, HS.
  - apply map_Forall_delete, H.
  - apply map_Forall_empty.
  - rewrite getCurrentBackoff_spec. simpl.
    apply map_Forall_insert_2; [apply HS | exact H].
  - rewrite getConsecutiveErrors_spec. simpl.
    apply map_Forall_insert_2; [apply HS | exact H].
Qed.

Lemma performAll_OK cs : forall w,
  OK w -> OK (snd (performAll clock baseDelayMs maxDelayMs cs w)).
Proof.
  induction cs as [|c cs IH]; intros w H; simpl.
  - exact H.
  - unfold bind. pose proof (perform_OK c w H) as H1.
    destruct (perform clock baseDelayMs maxDelayMs c w) as [[] w1].
    apply IH, H1.
Qed.

(** Every state that a new limiter can be brought to satisfies the
    invariant. *)
Lemma reachable_invariant cs w0 accountId s :
  accountStates w0 = ∅ ->
  accountStates (snd (performAll clock baseDelayMs maxDelayMs cs w0))
    !! accountId = Some s ->
  backoffInvariant baseDelayMs maxDelayMs s.
Proof.
  intros H0 Hs.
  assert (OK w0) as HOK by (unfold statesOK; rewrite H0; apply map_Forall_empty).
  exact (proj2 (performAll_OK cs w0 HOK _ _ Hs)).
Qed.

End BackoffInvariant.

(** C7, as amended.  For a limiter constructed with
    [0 <= baseDelay <= maxDelay], every per-account state that any sequence
    of [shouldWait], [recordSuccess], [recordRateLimitError], [reset],
    [resetAll], [getCurrentBackoff] and [getConsecutiveErrors] calls leads to
    has [currentBackoffMs] in [[baseDelay, maxDelay]], and
    [consecutiveErrors = 0] implies [currentBackoffMs = baseDelay]. *)
Theorem C7_backoff_invariant (clock : nat -> Z) (baseDelay maxDelay : Z)
    (calls : list LimiterCall) (accountId : string)
    (s : AccountRateLimitState) :
  0 <= baseDelay -> baseDelay <= maxDelay ->
  accountStates (snd (performAll clock baseDelay maxDelay calls newWorld))
    !! accountId = Some s ->
  baseDelay <= currentBackoffMs s <= maxDelay
  /\ (consecutiveErrors s = 0 -> currentBackoffMs s = baseDelay).
Proof.
  intros H0 H1 Hs.
  exact (reachable_invariant clock baseDelay maxDelay H0 H1 calls newWorld
           accountId s eq_refl Hs).
Qed.

Lemma C7_backoff_invariant_witness :
  accountStates (snd (performAll (fun n => Z.of_nat n) 1000 10000
                        sampleCalls newWorld)) !! "a"
    = Some (mkState 4 (Some 5000) 8000 (Some 4))
  /\ 1000 <= 8000 <= 10000 /\ (4 = 0 -> 8000 = 1000).
Proof.
  split; [vm_compute; reflexivity|].
  apply (C7_backoff_invariant (fun n => Z.of_nat n) 1000 10000
           sampleCalls "a" (mkState 4 (Some 5000) 8000 (Some 4)));
    [lia | lia | vm_compute; reflexivity].
Defined.

(** C7 as first stated, with [baseDelay <= maxDelay] alone, fails for a
    negative base delay: one [recordRateLimitError] doubles -5 to -10, which
    is below the base. *)
Lemma C7_negative_base_counterexample :
  -5 <= 10
  /\ accountStates
       (snd (performAll (fun _ => 0) (-5) 10
               [CallRecordRateLimitError "a" None] newWorld)) !! "a"
     = Some (mkState 1 None (-10) (Some 0))
  /\ ~ backoffInvariant (-5) 10 (mkState 1 None (-10) (Some 0)).
Proof.
  split; [lia|]. split; [vm_compute; reflexivity|].
  unfold backoffInvariant; simpl. lia.
Qed.

(** ** Header parsing *)

Example parseInt_seconds : parseInt "60" = Some 60.
Proof. reflexivity. Qed.

Example parseInt_prefix : parseInt "  12abc" = Some 12.
Proof. reflexivity. Qed.

Example parseInt_negative : parseInt "-5" = Some (-5).
Proof. reflexivity. Qed.

Example parseInt_http_date : parseInt "Wed, 21 Oct 2015 07:28:00 GMT" = None.
Proof. reflexivity. Qed.

Example parseInt_no_break_space :
  parseInt (String (ascii_of_nat 160) "1700000000") = Some 1700000000.
Proof. reflexivity. Qed.

Example parseInt_no_digit : parseInt " -x1" = None.
Proof. reflexivity. Qed.

(** *** Decimal numerals *)

Lemma digitValue_pretty_N_char (d : N) :
  (d < 10)%N ->
  digitValue (pretty_N_char d) = Some (Z.of_N d)
  /\ isWhiteSpace (pretty_N_char d) = false
  /\ pretty_N_char d <> "-"%char /\ pretty_N_char d <> "+"%char.
Proof.
  intros H.
  assert (d = 0 \/ d = 1 \/ d = 2 \/ d = 3 \/ d = 4 \/ d = 5 \/ d = 6
          \/ d = 7 \/ d = 8 \/ d = 9)%N as Hd by lia.
  repeat (destruct Hd as [-> | Hd]); try subst d;
    (split; [reflexivity | split; [reflexivity | split; discriminate]]).
Qed.

(** Reading the digits that [pretty_N_go] has put in front of [s]. *)
Lemma parseDigits_pretty_N_go (x : N) :
  (0 < x)%N ->
  exists k : nat, forall s acc,
    parseDigits (pretty_N_go x s) acc =
      parseDigits s (Some (default 0 acc * 10 ^ Z.of_nat k + Z.of_N x)).
Proof.
  induction (N.lt_wf_0 x) as [x _ IH]; intros Hx.
  assert (Hmod : (x `mod` 10 < 10)%N) by (apply N.mod_lt; lia).
  destruct (digitValue_pretty_N_char _ Hmod) as (Hd & _).
  assert (Hdiv : x = (10 * (x `div` 10) + x `mod` 10)%N)
    by (apply N.div_mod; lia).
  destruct (N.eq_dec (x `div` 10)%N 0%N) as [Hz | Hnz].
  - exists 1%nat. intros s acc.
    rewrite pretty_N_go_step by exact Hx. rewrite Hz, pretty_N_go_0.
    simpl parseDigits. rewrite Hd. f_equal. f_equal. lia.
  - destruct (IH (x `div` 10)%N) as (k & Hk).
    { apply N.div_lt; lia. }
    { lia. }
    exists (S k). intros s acc.
    rewrite pretty_N_go_step by exact Hx. rewrite Hk.
    simpl parseDigits. rewrite Hd. f_equal. f_equal. simpl default.
    rewrite Nat2Z.inj_succ, Z.pow_succ_r by lia. lia.
Qed.

Lemma pretty_N_go_head (x : N) :
  (0 < x)%N ->
  forall s, exists d rest,
    (d < 10)%N /\ pretty_N_go x s = String (pretty_N_char d) rest.
Proof.
  induction (N.lt_wf_0 x) as [x _ IH]; intros Hx s.
  rewrite pretty_N_go_step by exact Hx.
  destruct (N.eq_dec (x `div` 10)%N 0%N) as [Hz | Hnz].
  - rewrite Hz, pretty_N_go_0. eexists _, _. split; [|reflexivity].
    apply N.mod_lt. lia.
  - apply IH.
    + apply N.div_lt; lia.
    + now apply N.neq_0_lt_0.
Qed.

Lemma parseInt_digit_head (d : N) (rest : string) :
  (d < 10)%N ->
  parseInt (String (pretty_N_char d) rest) =
    parseDigits (String (pretty_N_char d) rest) None.
Proof.
  intros H.
  assert (d = 0 \/ d = 1 \/ d = 2 \/ d = 3 \/ d = 4 \/ d = 5 \/ d = 6
          \/ d = 7 \/ d = 8 \/ d = 9)%N as Hd by lia.
  repeat (destruct Hd as [-> | Hd]); try subst d; reflexivity.
Qed.

Lemma parseDigits_pretty_pos (p : positive) :
  parseDigits (pretty_N_go (N.pos p) "") None = Some (Z.pos p).
Proof.
  destruct (parseDigits_pretty_N_go (N.pos p)) as (k & Hk); [lia|].
  rewrite Hk. simpl. reflexivity.
Qed.

Lemma parseInt_minus (t : string) :
  parseInt (String "-"%char t) = Z.opp <$> parseDigits t None.
Proof. reflexivity. Qed.

(** [parseInt] reads back the decimal rendering of every integer. *)
Lemma parseInt_pretty (n : Z) : parseInt (pretty n) = Some n.
Proof.
  destruct n as [|p|p].
  - reflexivity.
  - change (pretty (Z.pos p)) with (pretty_N_go (N.pos p) "").
    destruct (pretty_N_go_head (N.pos p) ltac:(lia) "") as (d & rest & Hd & E).
    rewrite E, (parseInt_digit_head d rest Hd), <- E.
    apply parseDigits_pretty_pos.
  - change (pretty (Z.neg p)) with (String "-"%char (pretty_N_go (N.pos p) "")).
    rewrite parseInt_minus, parseDigits_pretty_pos. reflexivity.
Qed.

Section HeaderFacts.

Variable clock : nat -> Z.
Variable dateParse : string -> option Z.

Lemma parseRetryAfter_unusable headers w :
  retryAfterUnusable dateParse headers ->
  parseRetryAfter clock dateParse headers w = (None, w).
Proof.
  unfold parseRetryAfter, ret.
  intros [-> | (v & -> & -> & ->)]; reflexivity.
Qed.

Lemma parseRetryAfter_absent headers w :
  headers !! "retry-after" = None ->
  parseRetryAfter clock dateParse headers w = (None, w).
Proof. intros H. apply parseRetryAfter_unusable. now left. Qed.

(** C3, as amended.  [parseRateLimitHeaders] tries Retry-After first: a
    value that parses as an integer yields the clock reading plus that
    many seconds, otherwise a value that parses as a date yields that
    instant.  Failing both, an X-RateLimit-Reset that parses as an integer
    yields that timestamp: a value of at most 10,000,000,000 is taken as
    seconds and multiplied by 1000, a value strictly above it is taken as
    milliseconds already.  With no header that parses, there is no
    result.  An integer result is read as an instant where it is the time
    value of a valid date, the clock reading being one.  The decimal
    rendering of an integer is a value that parses as this integer, in
    either header. *)
Theorem C3_parseRateLimitHeaders_cases headers w :
  let now := clock (clockReads w) in
  let r := fst (parseRateLimitHeaders clock dateParse headers w) in
  (forall v seconds,
     headers !! "retry-after" = Some v -> parseInt v = Some seconds ->
     validTime now -> validTime (now + seconds * 1000) ->
     r = Some (now + seconds * 1000))
  /\ (forall v date,
        headers !! "retry-after" = Some v -> parseInt v = None ->
        dateParse v = Some date ->
        r = Some date)
  /\ (forall x timestamp,
        retryAfterUnusable dateParse headers ->
        headers !! "x-ratelimit-reset" = Some x ->
        parseInt x = Some timestamp ->
        (timestamp <= 10000000000 -> validTime (timestamp * 1000) ->
         r = Some (timestamp * 1000))
        /\ (10000000000 < timestamp -> validTime timestamp ->
            r = Some timestamp))
  /\ (retryAfterUnusable dateParse headers ->
      headers !! "x-ratelimit-reset" = None
      \/ (exists x, headers !! "x-ratelimit-reset" = Some x
                    /\ parseInt x = None) ->
      r = None)
  /\ (forall n : Z,
        (headers !! "retry-after" = Some (pretty n) ->
         validTime now -> validTime (now + n * 1000) ->
         r = Some (now + n * 1000))
        /\ (headers !! "retry-after" = None ->
            headers !! "x-ratelimit-reset" = Some (pretty n) ->
            (n <= 10000000000 -> validTime (n * 1000) ->
             r = Some (n * 1000))
            /\ (10000000000 < n -> validTime n -> r = Some n))).
Proof.
  intros now r. subst r. unfold parseRateLimitHeaders, bind.
  assert (Hreset : forall x timestamp,
            headers !! "x-ratelimit-reset" = Some x ->
            parseInt x = Some timestamp ->
            (timestamp <= 10000000000 ->
             parseRateLimitReset headers = Some (timestamp * 1000))
            /\ (10000000000 < timestamp ->
                parseRateLimitReset headers = Some timestamp)).
  { intros x timestamp Hx Hp. unfold parseRateLimitReset. rewrite Hx, Hp.
    split; intros Ht.
    - replace (10000000000 <? timestamp) with false
        by (symmetry; apply Z.ltb_ge; lia). reflexivity.
    - replace (10000000000 <? timestamp) with true
        by (symmetry; apply Z.ltb_lt; lia). reflexivity. }
  assert (Hretry : forall v seconds,
            headers !! "retry-after" = Some v -> parseInt v = Some seconds ->
            parseRetryAfter clock dateParse headers w =
              (Some (now + seconds * 1000),
               mkWorld (accountStates w) (S (clockReads w))
                       (transportCalls w) (slept w))).
  { intros v seconds Hv Hp. unfold parseRetryAfter, bind, ret, DateNow.
    rewrite Hv, Hp. reflexivity. }
  split; [|split; [|split; [|split]]].
  - intros v seconds Hv Hp _ _. rewrite (Hretry v seconds Hv Hp). reflexivity.
  - intros v date Hv Hp Hd. unfold parseRetryAfter, ret.
    rewrite Hv, Hp, Hd. reflexivity.
  - intros x timestamp Hu Hx Hp.
    rewrite (parseRetryAfter_unusable _ _ Hu). unfold ret; simpl.
    destruct (Hreset x timestamp Hx Hp) as [H1 H2]. split; auto.
  - intros Hu Hx.
    rewrite (parseRetryAfter_unusable _ _ Hu). unfold ret; simpl.
    unfold parseRateLimitReset.
    destruct Hx as [-> | (x & -> & ->)]; reflexivity.
  - intros n. split.
    + intros Hv _ _. rewrite (Hretry _ n Hv (parseInt_pretty n)). reflexivity.
    + intros Hv Hx. rewrite (parseRetryAfter_absent _ _ Hv). unfold ret; simpl.
      destruct (Hreset _ n Hx (parseInt_pretty n)) as [H1 H2]. split; auto.
Qed.

End HeaderFacts.

(** C3 as first stated puts the boundary value 10,000,000,000 itself on the
    milliseconds side; the code multiplies it by 1000. *)
Lemma C3_threshold_counterexample :
  parseInt "10000000000" = Some 10000000000
  /\ fst (parseRateLimitHeaders (fun _ => 0) (fun _ => None)
            {[ "x-ratelimit-reset" := "10000000000" ]} newWorld)
     = Some 10000000000000
  /\ resetInstant_stated 10000000000 = 10000000000
  /\ fst (parseRateLimitHeaders (fun _ => 0) (fun _ => None)
            {[ "x-ratelimit-reset" := "10000000000" ]} newWorld)
     <> Some (resetInstant_stated 10000000000).
Proof.
  split; [reflexivity|]. split; [vm_compute; reflexivity|].
  split; [reflexivity|]. vm_compute. discriminate.
Qed.

(** The threshold on both sides, with [Retry-After] absent. *)
Lemma C3_parseRateLimitHeaders_witness :
  fst (parseRateLimitHeaders (fun _ => 0) (fun _ => None)
         {[ "x-ratelimit-reset" := "1700000000" ]} newWorld)
    = Some 1700000000000
  /\ fst (parseRateLimitHeaders (fun _ => 0) (fun _ => None)
            {[ "x-ratelimit-reset" := "1700000000000" ]} newWorld)
     = Some 1700000000000.
Proof.
  split.
  - pose proof (C3_parseRateLimitHeaders_cases (fun _ => 0) (fun _ => None)
                  {[ "x-ratelimit-reset" := "1700000000" ]} newWorld) as H.
    cbv zeta in H. destruct H as (_ & _ & H & _).
    destruct (H "1700000000"%string 1700000000 (or_introl eq_refl)
                eq_refl eq_refl) as [H1 _].
    apply H1; unfold validTime; lia.
  - pose proof (C3_parseRateLimitHeaders_cases (fun _ => 0) (fun _ => None)
                  {[ "x-ratelimit-reset" := "1700000000000" ]} newWorld) as H.
    cbv zeta in H. destruct H as (_ & _ & H & _).
    destruct (H "1700000000000"%string 1700000000000 (or_introl eq_refl)
                eq_refl eq_refl) as [_ H2].
    apply H2; unfold validTime; lia.
Defined.

(** ** Classification of an attempt *)

(** Decides the integer tests on a status code from the hypotheses. *)
Ltac decide_status :=
  repeat match goal with
  | |- context [Z.eqb ?a ?b] =>
      first [ replace (Z.eqb a b) with true by (symmetry; apply Z.eqb_eq; lia)
            | replace (Z.eqb a b) with false by (symmetry; apply Z.eqb_neq; lia) ]
  | |- context [Z.leb ?a ?b] =>
      first [ replace (Z.leb a b) with true by (symmetry; apply Z.leb_le; lia)
            | replace (Z.leb a b) with false by (symmetry; apply Z.leb_gt; lia) ]
  end;
  simpl.

Section AttemptFacts.

Variable clock : nat -> Z.
Variable dateParse : string -> option Z.

Variables (url : string) (timeout : Z) (options : RequestOptions) (attempt : Z).

Local Abbreviation settle' :=
  (settle clock dateParse url timeout options attempt).
Local Abbreviation handle' :=
  (fun response => handleResponse clock dateParse response options attempt).

(** A typed error thrown by [handleResponse] passes the [catch] clause
    unchanged. *)
Lemma settle_Resolved_typed response w c b :
  throwsTyped (fst (handle' response w)) c b ->
  throwsTyped (fst (settle' (Resolved response) w)) c b.
Proof.
  unfold settle, bind, throwTyped, ret.
  destruct (handleResponse clock dateParse response options attempt w)
    as [r w1]; simpl.
  intros (e & -> & Hc & Hb). exists e. simpl. auto.
Qed.

Lemma settle_neverBare outcome w : neverBare (fst (settle' outcome w)).
Proof.
  unfold settle, bind, throwTyped, ret.
  destruct outcome as [response | error].
  - destruct (handleResponse clock dateParse response options attempt w)
      as [[a | t] w1]; simpl; [left | right]; eauto.
  - simpl. right. eauto.
Qed.

Lemma handleResponse_error_statuses response w :
  let st := respStatus response in
  let r := fst (handle' response w) in
  (st = 429 -> throwsTyped r RATE_LIMIT true)
  /\ (st = 401 \/ st = 403 -> throwsTyped r AUTH false)
  /\ (st = 400 \/ st = 422 -> throwsTyped r VALIDATION false)
  /\ (st = 404 -> throwsTyped r NOT_FOUND false)
  /\ (500 <= st -> throwsTyped r UNKNOWN true)
  /\ (400 <= st < 500 ->
      st <> 429 -> st <> 401 -> st <> 403 ->
      st <> 400 -> st <> 422 -> st <> 404 ->
      throwsTyped r UNKNOWN false).
Proof.
  intros st r. subst st r. unfold handleResponse, throwsTyped, throwTyped.
  repeat split; intros;
    repeat match goal with H : _ \/ _ |- _ => destruct H end;
    decide_status; unfold bind, ret;
    try destruct (parseRateLimitHeaders _ _ _ _); simpl;
    eexists; repeat split.
Qed.

Lemma catch_cases (e : PlainError) (v : string) :
  let caught t := executeRequest_catch url timeout options attempt t in
  (errName e = "AbortError" ->
     category (caught (ThrownError e)) = TIMEOUT
     /\ isRetryable (caught (ThrownError e)) = true)
  /\ (errName e <> "AbortError" -> isConnectivityFailure e = true ->
        category (caught (ThrownError e)) = CONNECTION
        /\ isRetryable (caught (ThrownError e)) = true)
  /\ (errName e <> "AbortError" -> isConnectivityFailure e = false ->
        category (caught (ThrownError e)) = UNKNOWN
        /\ isRetryable (caught (ThrownError e)) = true)
  /\ category (caught (ThrownValue v)) = UNKNOWN
  /\ isRetryable (caught (ThrownValue v)) = true.
Proof.
  unfold executeRequest_catch, isConnectivityFailure; simpl.
  split; [|split; [|split]].
  - intros ->. simpl. split; reflexivity.
  - intros Hn ->. apply String.eqb_neq in Hn. rewrite Hn. split; reflexivity.
  - intros Hn ->. apply String.eqb_neq in Hn. rewrite Hn. split; reflexivity.
  - split; reflexivity.
Qed.

Lemma settle_Rejected error w :
  settle' (Rejected error) w =
    (Throw (ThrownTyped (executeRequest_catch url timeout options attempt error)),
     w).
Proof. reflexivity. Qed.

(** The [try]/[catch] of an attempt, for every way the transport can
    settle: the category and the retryability of what it throws. *)
Lemma settle_classification w :
  let result outcome := fst (settle' outcome w) in
  (forall response,
     let st := respStatus response in
     let r := result (Resolved response) in
     (st = 429 -> throwsTyped r RATE_LIMIT true)
     /\ (st = 401 \/ st = 403 -> throwsTyped r AUTH false)
     /\ (st = 400 \/ st = 422 -> throwsTyped r VALIDATION false)
     /\ (st = 404 -> throwsTyped r NOT_FOUND false)
     /\ (500 <= st -> throwsTyped r UNKNOWN true)
     /\ (400 <= st < 500 ->
         st <> 429 -> st <> 401 -> st <> 403 ->
         st <> 400 -> st <> 422 -> st <> 404 ->
         throwsTyped r UNKNOWN false))
  /\ (forall e : PlainError,
        let r := result (Rejected (ThrownError e)) in
        (errName e = "AbortError" -> throwsTyped r TIMEOUT true)
        /\ (errName e <> "AbortError" -> isConnectivityFailure e = true ->
            throwsTyped r CONNECTION true)
        /\ (errName e <> "AbortError" -> isConnectivityFailure e = false ->
            throwsTyped r UNKNOWN true))
  /\ (forall v : string,
        throwsTyped (result (Rejected (ThrownValue v))) UNKNOWN true)
  /\ (forall e : UnipileError,
        result (Rejected (ThrownTyped e)) = Throw (ThrownTyped e)).
Proof.
  intros result. subst result. cbv beta.
  split; [|split; [|split]].
  - intros response st r.
    destruct (handleResponse_error_statuses response w)
      as (H1 & H2 & H3 & H4 & H5 & H6).
    repeat split; intros; apply settle_Resolved_typed; auto.
  - intros e r. subst r. rewrite settle_Rejected. simpl.
    destruct (catch_cases e "") as (H1 & H2 & H3 & _).
    repeat split; intros; eexists; (split; [reflexivity|]); auto.
  - intros v. rewrite settle_Rejected. simpl.
    destruct (catch_cases (mkPlainError "" "") v) as (_ & _ & _ & H4).
    eexists; split; [reflexivity | exact H4].
  - intros e. reflexivity.
Qed.

End AttemptFacts.

(** ** Operations that leave the transport alone *)

Lemma quiet_ret {A} (a : A) : quiet (ret a).
Proof. intros w. reflexivity. Qed.

Lemma quiet_bind {A B} (m : M A) (k : A -> M B) :
  quiet m -> (forall a, quiet (k a)) -> quiet (bind m k).
Proof.
  intros Hm Hk w. unfold bind. specialize (Hm w).
  destruct (m w) as [a w1]; simpl in *. now rewrite Hk.
Qed.

Lemma quiet_getStates : quiet getStates.
Proof. intros w. reflexivity. Qed.

Lemma quiet_modifyStates f : quiet (modifyStates f).
Proof. intros w. reflexivity. Qed.

Lemma quiet_sleep ms : quiet (sleep ms).
Proof. intros w. reflexivity. Qed.

Lemma quiet_DateNow clock : quiet (DateNow clock).
Proof. intros w. reflexivity. Qed.

Create HintDb quiet.
#[export] Hint Resolve quiet_ret quiet_getStates quiet_modifyStates quiet_sleep
  quiet_DateNow : quiet.

(** Splits a monadic term along its binds and case distinctions. *)
Ltac quiet_steps :=
  repeat first
    [ solve [auto with quiet]
    | progress cbv zeta
    | apply quiet_bind; [|intros ?]
    | match goal with
      | |- quiet (match ?x with _ => _ end) => destruct x
      | |- quiet (if ?b then _ else _) => destruct b
      end ].

Lemma quiet_getAccountState baseDelayMs accountId :
  quiet (getAccountState baseDelayMs accountId).
Proof. unfold getAccountState. quiet_steps. Qed.

Lemma quiet_mutate accountId f : quiet (mutate accountId f).
Proof. apply quiet_modifyStates. Qed.

#[export] Hint Resolve quiet_getAccountState quiet_mutate : quiet.

Lemma quiet_shouldWait clock baseDelayMs accountId :
  quiet (shouldWait clock baseDelayMs accountId).
Proof. unfold shouldWait, checkResetAt, checkBackoff. quiet_steps. Qed.

Lemma quiet_recordSuccess clock baseDelayMs accountId :
  quiet (recordSuccess clock baseDelayMs accountId).
Proof. unfold recordSuccess. quiet_steps. Qed.

Lemma quiet_recordRateLimitError clock baseDelayMs maxDelayMs accountId r :
  quiet (recordRateLimitError clock baseDelayMs maxDelayMs accountId r).
Proof. unfold recordRateLimitError. quiet_steps. Qed.

Lemma quiet_getCurrentBackoff baseDelayMs accountId :
  quiet (getCurrentBackoff baseDelayMs accountId).
Proof. unfold getCurrentBackoff. quiet_steps. Qed.

#[export] Hint Resolve quiet_shouldWait quiet_recordSuccess
  quiet_recordRateLimitError quiet_getCurrentBackoff : quiet.

Lemma quiet_parseRateLimitHeaders clock dateParse headers :
  quiet (parseRateLimitHeaders clock dateParse headers).
Proof. unfold parseRateLimitHeaders, parseRetryAfter. quiet_steps. Qed.

Lemma quiet_handleResponse clock dateParse response options attempt :
  quiet (handleResponse clock dateParse response options attempt).
Proof.
  unfold handleResponse, throwTyped.
  pose proof (quiet_parseRateLimitHeaders clock dateParse) as H.
  quiet_steps.
Qed.

Lemma quiet_settle clock dateParse url timeout options attempt outcome :
  quiet (settle clock dateParse url timeout options attempt outcome).
Proof.
  unfold settle, throwTyped.
  pose proof (quiet_handleResponse clock dateParse) as H.
  quiet_steps.
Qed.

(** ** The dispatcher *)

Section DispatcherFacts.

Variable clock : nat -> Z.
Variable dateParse : string -> option Z.
Variable transport : nat -> FetchOutcome.
Variable buildUrl :
  string -> string -> option (list (string * option ParamValue)) -> option string.
Variable client : HttpClient.

Local Abbreviation baseDelay := (limiterBaseDelayMs client).
Local Abbreviation awaitRateLimit' := (awaitRateLimit clock client).
Local Abbreviation executeRequest' :=
  (executeRequest clock dateParse transport buildUrl client).
Local Abbreviation attempts' :=
  (attempts clock dateParse transport buildUrl client).
Local Abbreviation request' :=
  (request clock dateParse transport buildUrl client).

Lemma shouldWait_transportCalls accountId w :
  transportCalls (snd (shouldWait clock baseDelay accountId w)) =
    transportCalls w.
Proof. apply quiet_shouldWait. Qed.

(** The rate limit check never touches the transport. *)
Lemma awaitRateLimit_transportCalls accountId w :
  transportCalls (snd (awaitRateLimit' accountId w)) = transportCalls w.
Proof.
  unfold awaitRateLimit, bind.
  pose proof (shouldWait_transportCalls accountId w) as H.
  destruct (shouldWait clock _ accountId w) as [v w1]; simpl in H.
  destruct (0 <? v); [destruct (enableRetry client)|]; simpl; exact H.
Qed.

(** With retry disabled and a positive wait, the check yields the error. *)
Lemma awaitRateLimit_blocked accountId w :
  let wait := fst (shouldWait clock baseDelay accountId w) in
  let w1 := snd (shouldWait clock baseDelay accountId w) in
  enableRetry client = false -> 0 < wait ->
  fst (awaitRateLimit' accountId w) =
    Some (new_RateLimitError
            ("Rate limit active, retry after " +:+ pretty wait +:+ "ms")
            (mkContext None None None None (Some accountId) None
                       (Some (clock (clockReads w1) + wait)) None)).
Proof.
  intros wait w1 Hr Hw. subst wait w1. unfold awaitRateLimit, bind.
  destruct (shouldWait clock _ accountId w) as [v w1]; simpl in *.
  apply Z.ltb_lt in Hw. rewrite Hw, Hr. reflexivity.
Qed.

Lemma checkBackoff_slept s w : slept (snd (checkBackoff clock s w)) = slept w.
Proof.
  unfold checkBackoff, bind, ret, DateNow.
  destruct (0 <? consecutiveErrors s); [|reflexivity].
  destruct (lastRequestAt s); [|reflexivity]. simpl.
  now destruct (0 <? _).
Qed.

Lemma shouldWait_slept accountId w :
  slept (snd (shouldWait clock baseDelay accountId w)) = slept w.
Proof.
  rewrite shouldWait_unfold.
  destruct (resetAt _); [destruct (0 <? _)|];
    rewrite ?checkBackoff_slept; reflexivity.
Qed.

(** Refusing a call involves no sleep. *)
Lemma awaitRateLimit_blocked_slept accountId w :
  enableRetry client = false ->
  0 < fst (shouldWait clock baseDelay accountId w) ->
  slept (snd (awaitRateLimit' accountId w)) = slept w.
Proof.
  intros Hr Hw. unfold awaitRateLimit, bind.
  pose proof (shouldWait_slept accountId w) as H.
  destruct (shouldWait clock _ accountId w) as [v w1]; simpl in *.
  apply Z.ltb_lt in Hw. rewrite Hw, Hr. exact H.
Qed.

(** With a URL that builds, an attempt is one [fetch] followed by the
    [try]/[catch] on how it settled. *)
Lemma executeRequest_settles options attempt w url :
  buildUrl (baseUrl client) (path options) (params options) = Some url ->
  executeRequest' options attempt w =
    settle clock dateParse url (default (timeout client) (optTimeout options))
           options attempt (transport (transportCalls w))
           (mkWorld (accountStates w) (clockReads w)
                    (S (transportCalls w)) (slept w)).
Proof. unfold executeRequest. now intros ->. Qed.

(** An attempt that throws a typed error has called the transport once. *)
Lemma executeRequest_typed_calls options attempt w e :
  fst (executeRequest' options attempt w) = Throw (ThrownTyped e) ->
  transportCalls (snd (executeRequest' options attempt w)) =
    S (transportCalls w).
Proof.
  unfold executeRequest.
  destruct (buildUrl _ _ _) as [url|]; [|discriminate].
  intros _. unfold bind, fetch. now rewrite quiet_settle.
Qed.

(** With a URL that builds, an attempt calls the transport once and
    carries no bare value out. *)
Lemma executeRequest_with_url options attempt w url :
  buildUrl (baseUrl client) (path options) (params options) = Some url ->
  transportCalls (snd (executeRequest' options attempt w)) =
    S (transportCalls w)
  /\ neverBare (fst (executeRequest' options attempt w)).
Proof.
  intros H. rewrite (executeRequest_settles _ _ _ _ H). split.
  - now rewrite quiet_settle.
  - apply settle_neverBare.
Qed.

(** The attempt loop carries no bare value out either, the error it
    remembers being typed. *)
Lemma attempts_neverBare options accountId url maxAttempts remaining :
  forall attempt lastError w,
  buildUrl (baseUrl client) (path options) (params options) = Some url ->
  (lastError = None \/ exists e, lastError = Some (ThrownTyped e)) ->
  neverBare (fst (attempts' options accountId maxAttempts remaining attempt
                            lastError w)).
Proof.
  induction remaining as [|remaining IH]; intros attempt lastError w Hu Hl.
  - simpl. right. destruct Hl as [-> | (e & ->)]; simpl; eauto.
  - simpl. unfold bind.
    destruct (executeRequest_with_url options attempt w url Hu) as [_ Hn].
    destruct (executeRequest' options attempt w) as [[resp | error] w1];
      simpl in Hn.
    + destruct (recordSuccess clock _ accountId w1) as [[] w2].
      left. simpl. eauto.
    + destruct Hn as [(a & Ha) | (e & He)]; [discriminate|].
      injection He as ->.
      destruct (negb (isRetryable e) || (maxAttempts <=? attempt)); simpl.
      * right. eauto.
      * destruct (backOff clock client accountId attempt e w1) as [[] w2].
        apply IH; [exact Hu | right; eauto].
Qed.

Lemma request_neverBare options w url :
  buildUrl (baseUrl client) (path options) (params options) = Some url ->
  neverBare (fst (request' options w)).
Proof.
  intros Hu. unfold request, bind.
  destruct (awaitRateLimit' _ w) as [[e|] w1]; simpl.
  - right. eauto.
  - apply (attempts_neverBare _ _ url); [exact Hu | now left].
Qed.

(** With retry disabled, a request that the limiter lets through is its
    first attempt: it returns what the attempt returns and throws what the
    attempt throws. *)
Lemma request_single_attempt options w :
  let account := default "global" (accountId options) in
  enableRetry client = false ->
  fst (awaitRateLimit' account w) = None ->
  fst (request' options w) =
    fst (executeRequest' options 1 (snd (awaitRateLimit' account w))).
Proof.
  intros account Hr Hg. unfold request, bind. fold account.
  destruct (awaitRateLimit' account w) as [blocked w1]; simpl in *.
  subst blocked. rewrite Hr. simpl. unfold bind.
  destruct (executeRequest' options 1 w1) as [[resp | error] w2]; simpl.
  - now destruct (recordSuccess clock _ account w2) as [[] w3].
  - destruct error as [e | e | v]; simpl; try reflexivity.
    now rewrite orb_true_r.
Qed.

(** C4. An attempt whose URL builds calls the transport once, and whatever
    way that call settles, [executeRequest] returns normally or throws a
    typed error, never a bare value, with the category and retryability of
    the error fixed by the outcome: status 429 gives a retryable rate_limit
    error; 401 and 403 a non-retryable auth error; 400 and 422 a
    non-retryable validation error; 404 a non-retryable not_found error; a
    status of 500 or more a retryable unknown error; any other status of
    400 or more a non-retryable unknown error; a rejection with an
    [AbortError] a retryable timeout error; a rejection with an [Error]
    whose message carries a connectivity marker a retryable connection
    error; a rejection with any other value that is not a typed error a
    retryable unknown error; and a rejection with a typed error throws
    that very error.  [request] in turn returns normally or throws a typed
    error, from every state, and with retry disabled a request that the
    limiter lets through gives what its one attempt gives. *)
Theorem C4_attempt_outcome_typed options attempt w url :
  buildUrl (baseUrl client) (path options) (params options) = Some url ->
  let outcome := transport (transportCalls w) in
  let res :=
    executeRequest clock dateParse transport buildUrl client options attempt w in
  let r := fst res in
  let account := default "global" (accountId options) in
  let requested w0 :=
    request clock dateParse transport buildUrl client options w0 in
  transportCalls (snd res) = S (transportCalls w)
  /\ neverBare r
  /\ (forall response,
        outcome = Resolved response ->
        let st := respStatus response in
        (st = 429 -> throwsTyped r RATE_LIMIT true)
        /\ (st = 401 \/ st = 403 -> throwsTyped r AUTH false)
        /\ (st = 400 \/ st = 422 -> throwsTyped r VALIDATION false)
        /\ (st = 404 -> throwsTyped r NOT_FOUND false)
        /\ (500 <= st -> throwsTyped r UNKNOWN true)
        /\ (400 <= st < 500 ->
            st <> 429 -> st <> 401 -> st <> 403 ->
            st <> 400 -> st <> 422 -> st <> 404 ->
            throwsTyped r UNKNOWN false))
  /\ (forall e : PlainError,
        outcome = Rejected (ThrownError e) ->
        (errName e = "AbortError" -> throwsTyped r TIMEOUT true)
        /\ (errName e <> "AbortError" -> isConnectivityFailure e = true ->
            throwsTyped r CONNECTION true)
        /\ (errName e <> "AbortError" -> isConnectivityFailure e = false ->
            throwsTyped r UNKNOWN true))
  /\ (forall v : string,
        outcome = Rejected (ThrownValue v) -> throwsTyped r UNKNOWN true)
  /\ (forall e : UnipileError,
        outcome = Rejected (ThrownTyped e) -> r = Throw (ThrownTyped e))
  /\ (forall w0, neverBare (fst (requested w0)))
  /\ (forall w0,
        enableRetry client = false ->
        fst (awaitRateLimit clock client account w0) = None ->
        fst (requested w0) =
          fst (executeRequest clock dateParse transport buildUrl client
                 options 1 (snd (awaitRateLimit clock client account w0)))).
Proof.
  intros Hu outcome res r account requested.
  subst outcome res r account requested.
  destruct (executeRequest_with_url options attempt w url Hu) as [Hc Hn].
  split; [exact Hc|]. split; [exact Hn|]. clear Hc Hn.
  rewrite (executeRequest_settles _ _ _ _ Hu).
  destruct (settle_classification clock dateParse url
              (default (timeout client) (optTimeout options)) options attempt
              (mkWorld (accountStates w) (clockReads w)
                       (S (transportCalls w)) (slept w)))
    as (H1 & H2 & H3 & H4).
  split; [|split; [|split; [|split; [|split]]]].
  - intros response ->. exact (H1 response).
  - intros e ->. exact (H2 e).
  - intros v ->. exact (H3 v).
  - intros e ->. exact (H4 e).
  - intros w0. exact (request_neverBare options w0 url Hu).
  - intros w0 Hr Hg. exact (request_single_attempt options w0 Hr Hg).
Qed.

(** One iteration of the attempt loop that meets a non-retryable typed
    error ends the loop: the error is thrown as it is, and the world is
    the one that this single attempt left. *)
Lemma attempts_nonretryable options accountId maxAttempts remaining attempt
    lastError w e :
  fst (executeRequest' options attempt w) = Throw (ThrownTyped e) ->
  isRetryable e = false ->
  attempts' options accountId maxAttempts (S remaining) attempt lastError w =
    (Throw (ThrownTyped e), snd (executeRequest' options attempt w)).
Proof.
  intros He Hr. simpl. unfold bind.
  destruct (executeRequest' options attempt w) as [r w1]; simpl in *.
  subst r. rewrite Hr. reflexivity.
Qed.

Lemma attempts_none options accountId maxAttempts attempt lastError w :
  snd (attempts' options accountId maxAttempts O attempt lastError w) = w.
Proof. reflexivity. Qed.

(** C5. When the limiter asks for a positive wait for the account of a
    request and retry is disabled on the client, [request] throws at once,
    without sleeping and without calling the transport, a [RateLimitError]
    (category rate_limit) whose context carries the account and, as reset
    time, the clock reading taken when the error is built plus the wait. *)
Theorem C5_refused_without_retry options w :
  let account := default "global" (accountId options) in
  let checked := shouldWait clock (limiterBaseDelayMs client) account w in
  let wait := fst checked in
  let now := clock (clockReads (snd checked)) in
  let res := request clock dateParse transport buildUrl client options w in
  enableRetry client = false ->
  0 < wait ->
  exists e,
    fst res = Throw (ThrownTyped e)
    /\ category e = RATE_LIMIT
    /\ isRetryable e = true
    /\ errClass e = RateLimitErrorClass (Some (now + wait)) (Some account)
    /\ rateLimitResetAt (context e) = Some (now + wait)
    /\ ctxAccountId (context e) = Some account
    /\ transportCalls (snd res) = transportCalls w
    /\ slept (snd res) = slept w.
Proof.
  intros account checked wait now res Hr Hw. subst res wait now checked.
  pose proof (awaitRateLimit_blocked account w Hr Hw) as Hb.
  pose proof (awaitRateLimit_transportCalls account w) as Ht.
  pose proof (awaitRateLimit_blocked_slept account w Hr Hw) as Hs.
  unfold request, bind. fold account.
  destruct (awaitRateLimit' account w) as [blocked w1]; simpl in *.
  subst blocked. eexists. simpl. repeat split; assumption.
Qed.

(** C6. A non-retryable typed error is never retried.  In any iteration of
    the attempt loop, whatever [maxAttempts] and the attempt number are,
    an attempt that throws a non-retryable typed error ends the loop with
    that error and that single call of the transport.  Hence, for every
    [maxRetries] and with retry enabled or not: when [request] calls the
    transport at all and its first attempt throws a non-retryable typed
    error, [request] throws that error and has called the transport
    exactly once. *)
Theorem C6_nonretryable_not_retried options :
  let account := default "global" (accountId options) in
  let attemptAt attempt w :=
    executeRequest clock dateParse transport buildUrl client options attempt w in
  let requested w :=
    request clock dateParse transport buildUrl client options w in
  (forall maxAttempts remaining attempt lastError w e,
     fst (attemptAt attempt w) = Throw (ThrownTyped e) ->
     isRetryable e = false ->
     let res := attempts clock dateParse transport buildUrl client options
                         account maxAttempts (S remaining) attempt lastError w in
     fst res = Throw (ThrownTyped e)
     /\ transportCalls (snd res) = S (transportCalls w))
  /\ (forall w e,
        let w1 := snd (awaitRateLimit clock client account w) in
        (transportCalls w < transportCalls (snd (requested w)))%nat ->
        fst (attemptAt 1 w1) = Throw (ThrownTyped e) ->
        isRetryable e = false ->
        fst (requested w) = Throw (ThrownTyped e)
        /\ transportCalls (snd (requested w)) = S (transportCalls w)).
Proof.
  intros account attemptAt requested. subst attemptAt requested. split.
  - intros maxAttempts remaining attempt lastError w e He Hr res. subst res.
    rewrite (attempts_nonretryable _ _ _ _ _ _ _ _ He Hr). simpl.
    split; [reflexivity|]. exact (executeRequest_typed_calls _ _ _ _ He).
  - intros w e w1 Hcalls He Hr. subst w1.
    pose proof (awaitRateLimit_transportCalls account w) as Ht.
    revert Hcalls. unfold request, bind. fold account.
    destruct (awaitRateLimit' account w) as [blocked w1]; simpl in *.
    destruct blocked as [b|]; simpl; [lia|].
    destruct (Z.to_nat (if enableRetry client then maxRetries client else 1))
      as [|remaining].
    + rewrite attempts_none. lia.
    + intros _. rewrite (attempts_nonretryable _ _ _ _ _ _ _ _ He Hr). simpl.
      split; [reflexivity|].
      rewrite (executeRequest_typed_calls _ _ _ _ He). now rewrite Ht.
Qed.

End DispatcherFacts.

(** A 400 answer: the attempt throws a non-retryable validation error and
    has called the transport once; so does the request, retry disabled. *)
Lemma C4_attempt_outcome_typed_witness :
  throwsTyped
    (fst (executeRequest tick (fun _ => None) alwaysBadRequest sampleBuildUrl
            (sampleClient false 5) sampleOptions 1 newWorld))
    VALIDATION false
  /\ transportCalls
       (snd (executeRequest tick (fun _ => None) alwaysBadRequest
               sampleBuildUrl (sampleClient false 5) sampleOptions 1 newWorld))
     = 1%nat
  /\ neverBare
       (fst (request tick (fun _ => None) alwaysBadRequest sampleBuildUrl
               (sampleClient false 5) sampleOptions newWorld)).
Proof.
  pose proof (C4_attempt_outcome_typed tick (fun _ => None) alwaysBadRequest
                sampleBuildUrl (sampleClient false 5) sampleOptions 1 newWorld
                "https://api.example.com:443/test" eq_refl) as H.
  cbv zeta in H. destruct H as (Hc & _ & Hs & _ & _ & _ & Hb & _).
  split; [|split].
  - destruct (Hs badRequest eq_refl) as (_ & _ & H & _).
    apply H. left. reflexivity.
  - exact Hc.
  - exact (Hb newWorld).
Defined.

(** With retry disabled, a request for an account that is held back for
    5000 ms is refused with the reset time 5000, and nothing is fetched. *)
Lemma C5_refused_without_retry_witness :
  exists e,
    fst (request (fun _ => 0) (fun _ => None) alwaysBadRequest sampleBuildUrl
           (sampleClient false 5) sampleOptions heldBack)
      = Throw (ThrownTyped e)
    /\ category e = RATE_LIMIT
    /\ isRetryable e = true
    /\ errClass e = RateLimitErrorClass (Some 5000) (Some "acc-1")
    /\ rateLimitResetAt (context e) = Some 5000
    /\ ctxAccountId (context e) = Some "acc-1"
    /\ transportCalls
         (snd (request (fun _ => 0) (fun _ => None) alwaysBadRequest
                 sampleBuildUrl (sampleClient false 5) sampleOptions heldBack))
       = transportCalls heldBack
    /\ slept
         (snd (request (fun _ => 0) (fun _ => None) alwaysBadRequest
                 sampleBuildUrl (sampleClient false 5) sampleOptions heldBack))
       = slept heldBack.
Proof.
  exact (C5_refused_without_retry (fun _ => 0) (fun _ => None)
           alwaysBadRequest sampleBuildUrl (sampleClient false 5)
           sampleOptions heldBack eq_refl eq_refl).
Defined.

(** A 400 answer with retry enabled and three attempts allowed: one call of
    the transport, and the validation error reaches the caller. *)
Lemma C6_nonretryable_not_retried_witness :
  isRetryable badRequestError = false
  /\ fst (request (fun _ => 0) (fun _ => None) alwaysBadRequest sampleBuildUrl
            (sampleClient true 3) sampleOptions newWorld)
     = Throw (ThrownTyped badRequestError)
  /\ transportCalls
       (snd (request (fun _ => 0) (fun _ => None) alwaysBadRequest
               sampleBuildUrl (sampleClient true 3) sampleOptions newWorld))
     = 1%nat.
Proof.
  split; [reflexivity|].
  apply (proj2 (C6_nonretryable_not_retried (fun _ => 0) (fun _ => None)
                  alwaysBadRequest sampleBuildUrl (sampleClient true 3)
                  sampleOptions) newWorld badRequestError).
  - vm_compute. lia.
  - vm_compute. reflexivity.
  - reflexivity.
Defined.

(** ** fromEnv *)

Lemma fromEnv_dsn_missing (env : gmap string string) :
  env !! "UNIPILE_DSN" = None \/ env !! "UNIPILE_DSN" = Some "" ->
  fromEnv env =
    Throw (ThrownError
             (mkPlainError "Error" "UNIPILE_DSN environment variable is required")).
Proof. unfold fromEnv. intros [-> | ->]; reflexivity. Qed.

Lemma fromEnv_apiKey_missing (env : gmap string string) :
  env !! "UNIPILE_API_KEY" = None \/ env !! "UNIPILE_API_KEY" = Some "" ->
  fromEnv env =
    Throw (ThrownError
             (mkPlainError "Error" "UNIPILE_DSN environment variable is required"))
  \/ fromEnv env =
       Throw (ThrownError
                (mkPlainError "Error"
                   "UNIPILE_API_KEY environment variable is required")).
Proof.
  unfold fromEnv. intros H.
  destruct (env !! "UNIPILE_DSN") as [[|c d]|]; [left; reflexivity | | left; reflexivity].
  right. destruct H as [-> | ->]; reflexivity.
Qed.

(** C10. [fromEnv] throws an [Error] saying that UNIPILE_DSN or that
    UNIPILE_API_KEY is required, and constructs no client, whenever
    UNIPILE_DSN or UNIPILE_API_KEY is absent or the empty string; and it
    does with a variable set to the empty string exactly what it does with
    that variable absent. *)
Theorem C10_fromEnv_requires_variables (env : gmap string string) :
  env !! "UNIPILE_DSN" = None \/ env !! "UNIPILE_DSN" = Some ""
  \/ env !! "UNIPILE_API_KEY" = None \/ env !! "UNIPILE_API_KEY" = Some "" ->
  (exists msg,
     fromEnv env = Throw (ThrownError (mkPlainError "Error" msg))
     /\ (msg = "UNIPILE_DSN environment variable is required"
         \/ msg = "UNIPILE_API_KEY environment variable is required"))
  /\ (forall name,
        name = "UNIPILE_DSN" \/ name = "UNIPILE_API_KEY" ->
        fromEnv (<[name := ""]> env) = fromEnv (delete name env)).
Proof.
  intros H. split.
  - destruct H as [H | [H | [H | H]]].
    + eexists; split; [apply fromEnv_dsn_missing; auto | auto].
    + eexists; split; [apply fromEnv_dsn_missing; auto | auto].
    + destruct (fromEnv_apiKey_missing env (or_introl H)) as [-> | ->];
        eexists; split; eauto.
    + destruct (fromEnv_apiKey_missing env (or_intror H)) as [-> | ->];
        eexists; split; eauto.
  - intros name [-> | ->]; unfold fromEnv.
    + now rewrite lookup_insert_eq, lookup_delete_eq.
    + rewrite lookup_insert_eq, lookup_delete_eq.
      rewrite !lookup_insert_ne, !lookup_delete_ne by discriminate.
      destruct (env !! "UNIPILE_DSN") as [[|c d]|]; reflexivity.
Qed.

Lemma C10_fromEnv_requires_variables_witness :
  (exists msg,
     fromEnv {[ "UNIPILE_DSN" := "api6.unipile.com:13624";
                "UNIPILE_API_KEY" := "" ]}
       = Throw (ThrownError (mkPlainError "Error" msg))
     /\ (msg = "UNIPILE_DSN environment variable is required"
         \/ msg = "UNIPILE_API_KEY environment variable is required"))
  /\ fromEnv {[ "UNIPILE_DSN" := "api6.unipile.com:13624";
                "UNIPILE_API_KEY" := "" ]}
     = Throw (ThrownError
                (mkPlainError "Error"
                   "UNIPILE_API_KEY environment variable is required")).
Proof.
  split; [|vm_compute; reflexivity].
  apply (C10_fromEnv_requires_variables
           {[ "UNIPILE_DSN" := "api6.unipile.com:13624";
              "UNIPILE_API_KEY" := "" ]}).
  right; right; right. vm_compute. reflexivity.
Defined.

(** ** The repository's own test scenarios, run on the model *)

Section Scenarios.

Local Abbreviation limiterAfter calls :=
  (snd (performAll tick 1000 10000 calls newWorld)).

Example new_account_need_not_wait :
  fst (shouldWait tick 1000 "account-1" newWorld) = 0
  /\ fst (getConsecutiveErrors 1000 "account-1" newWorld) = 0.
Proof. split; reflexivity. Qed.

Example wait_after_rate_limit_error :
  fst (shouldWait tick 1000 "account-1"
         (limiterAfter [CallRecordRateLimitError "account-1" None])) = 1999.
Proof. vm_compute. reflexivity. Qed.

Example reset_time_from_api_is_respected :
  fst (shouldWait tick 1000 "account-1"
         (limiterAfter [CallRecordRateLimitError "account-1" (Some 5000)])) = 4999.
Proof. vm_compute. reflexivity. Qed.

Example backoff_after_reset_time_passed :
  fst (shouldWait tick 1000 "account-1"
         (limiterAfter [CallRecordRateLimitError "account-1" (Some (-1000))])) = 998.
Proof. vm_compute. reflexivity. Qed.

Example reset_clears_one_account :
  let w := limiterAfter [CallRecordRateLimitError "account-1" None;
                         CallRecordRateLimitError "account-2" None;
                         CallReset "account-1"] in
  fst (getConsecutiveErrors 1000 "account-1" w) = 0
  /\ fst (getConsecutiveErrors 1000 "account-2" w) = 1.
Proof. vm_compute. split; reflexivity. Qed.

Local Abbreviation run retries script :=
  (request tick (fun _ => None) (scripted script) sampleBuildUrl
           (sampleClient true retries) sampleOptions newWorld).

(** A 429 with [Retry-After: 0], then a 200: two calls, the payload of the
    second, and one sleep of the limiter's backoff in between. *)
Example rate_limited_then_success :
  let res := run 3 [answer 429 {[ "retry-after" := "0" ]} JNull;
                    answer 200 jsonHeaders successBody] in
  fst res = Normal (mkHttpResponse (PJson successBody) 200 jsonHeaders)
  /\ transportCalls (snd res) = 2%nat
  /\ slept (snd res) = [300000]
  /\ fst (getConsecutiveErrors 300000 "acc-1" (snd res)) = 0.
Proof. vm_compute. repeat split; reflexivity. Qed.

(** Two 500 answers with two attempts allowed: the second error is thrown. *)
Example retries_exhausted :
  let res := run 2 [answer 500 ∅ (JObject [("message", JString "Server error 1")]);
                    answer 500 ∅ (JObject [("message", JString "Server error 2")])] in
  (exists e, fst res = Throw (ThrownTyped e)
             /\ message e = "Server error 2" /\ category e = UNKNOWN)
  /\ transportCalls (snd res) = 2%nat
  /\ slept (snd res) = [1000].
Proof. vm_compute. split; [eexists|]; repeat split; reflexivity. Qed.

(** With retry enabled and no attempt allowed, nothing is fetched. *)
Example no_attempt_allowed :
  let res := run 0 [answer 400 ∅ JNull] in
  (exists e, fst res = Throw (ThrownTyped e)
             /\ message e = "Request failed after retries")
  /\ transportCalls (snd res) = 0%nat.
Proof. vm_compute. split; [eexists|]; repeat split; reflexivity. Qed.

End Scenarios.

(** * Further properties *)

(** ** Forgetting and restoring accounts *)

Section ResetFacts.

Variable clock : nat -> Z.
Variables baseDelayMs maxDelayMs : Z.

Implicit Types (w : World) (accountId : string).

Lemma shouldWait_fresh w accountId :
  accountStates w !! accountId = None ->
  fst (shouldWait clock baseDelayMs accountId w) = 0.
Proof.
  intros H. rewrite (shouldWait_unfold clock baseDelayMs accountId w).
  rewrite (stateOf_None baseDelayMs w accountId H). reflexivity.
Qed.

(** X1. [reset] makes the account new again: no wait, no errors, the base
    backoff; the states of all other accounts are as before. *)
Theorem reset_forgets_account w accountId :
  let w' := snd (reset accountId w) in
  fst (shouldWait clock baseDelayMs accountId w') = 0
  /\ fst (getConsecutiveErrors baseDelayMs accountId w') = 0
  /\ fst (getCurrentBackoff baseDelayMs accountId w') = baseDelayMs
  /\ (forall other, other <> accountId ->
        accountStates w' !! other = accountStates w !! other).
Proof.
  intros w'. subst w'. unfold reset, modifyStates; simpl.
  split; [|split; [|split]].
  - apply shouldWait_fresh. simpl. apply lookup_delete_eq.
  - rewrite getConsecutiveErrors_spec. unfold stateOf; simpl.
    now rewrite lookup_delete_eq.
  - rewrite getCurrentBackoff_spec. unfold stateOf; simpl.
    now rewrite lookup_delete_eq.
  - intros other Hne. now rewrite lookup_delete_ne.
Qed.

(** X2. [resetAll] makes every account new again. *)
Theorem resetAll_forgets_all w accountId :
  let w' := snd (resetAll w) in
  accountStates w' = ∅
  /\ fst (shouldWait clock baseDelayMs accountId w') = 0
  /\ fst (getConsecutiveErrors baseDelayMs accountId w') = 0
  /\ fst (getCurrentBackoff baseDelayMs accountId w') = baseDelayMs.
Proof.
  intros w'. subst w'. unfold resetAll, modifyStates; simpl.
  split; [reflexivity|]. split; [|split].
  - apply shouldWait_fresh. reflexivity.
  - rewrite getConsecutiveErrors_spec. reflexivity.
  - rewrite getCurrentBackoff_spec. reflexivity.
Qed.

(** X3. [recordSuccess] restores the account whatever its state was: zero
    errors and the base backoff, as the accessors report them; other
    accounts are not touched. *)
Theorem recordSuccess_restores w accountId :
  let w' := snd (recordSuccess clock baseDelayMs accountId w) in
  fst (getConsecutiveErrors baseDelayMs accountId w') = 0
  /\ fst (getCurrentBackoff baseDelayMs accountId w') = baseDelayMs
  /\ resetAt (stateOf baseDelayMs w' accountId) = None
  /\ lastRequestAt (stateOf baseDelayMs w' accountId)
       = Some (clock (clockReads w))
  /\ (forall other, other <> accountId ->
        accountStates w' !! other = accountStates w !! other).
Proof.
  intros w'. destruct (recordSuccess_spec clock baseDelayMs w accountId)
    as (Hm & _). fold w' in Hm.
  rewrite getConsecutiveErrors_spec, getCurrentBackoff_spec. simpl.
  rewrite (stateOf_after_insert baseDelayMs _ _ _ _ Hm). simpl.
  repeat split. intros other Hne. rewrite Hm. now rewrite lookup_insert_ne.
Qed.

Lemma recordErrors_cons accountId r rest w :
  recordErrors clock baseDelayMs maxDelayMs accountId (r :: rest) w =
    recordErrors clock baseDelayMs maxDelayMs accountId rest
      (snd (recordRateLimitError clock baseDelayMs maxDelayMs accountId r w)).
Proof. simpl. unfold bind. now destruct (recordRateLimitError _ _ _ _ _ _). Qed.

(** X4. The error counter counts every rate limit error since it was last
    zero, with or without a reset time: a run of [n] errors adds [n]. *)
Theorem consecutiveErrors_counts resets : forall w accountId,
  fst (getConsecutiveErrors baseDelayMs accountId
         (snd (recordErrors clock baseDelayMs maxDelayMs accountId resets w))) =
  fst (getConsecutiveErrors baseDelayMs accountId w) + Z.of_nat (length resets).
Proof.
  induction resets as [|r rest IH]; intros w accountId.
  - simpl. lia.
  - rewrite recordErrors_cons, IH.
    destruct (recordRateLimitError_spec clock baseDelayMs maxDelayMs w accountId r)
      as (Hm & _).
    rewrite !getConsecutiveErrors_spec. simpl.
    rewrite (stateOf_after_insert baseDelayMs _ _ _ _ Hm).
    destruct r; simpl length; simpl; lia.
Qed.

(** X5. Errors that all come with a reset time never advance the backoff:
    after any run of them it is what it was, and the reset time on record
    is the last one supplied. *)
Theorem server_deadlines_keep_backoff (rs : list Z) : forall w accountId,
  let w' := snd (recordErrors clock baseDelayMs maxDelayMs accountId
                   (map Some rs) w) in
  fst (getCurrentBackoff baseDelayMs accountId w') =
    fst (getCurrentBackoff baseDelayMs accountId w)
  /\ (forall r, last rs = Some r ->
        resetAt (stateOf baseDelayMs w' accountId) = Some r).
Proof.
  induction rs as [|r rest IH]; intros w accountId w'; subst w'.
  - split; [reflexivity | discriminate].
  - simpl map. rewrite recordErrors_cons.
    set (w1 := snd (recordRateLimitError clock baseDelayMs maxDelayMs
                      accountId (Some r) w)).
    destruct (IH w1 accountId) as [Hb Hr].
    destruct (recordRateLimitError_spec clock baseDelayMs maxDelayMs w accountId
                (Some r)) as (Hm & _). fold w1 in Hm.
    split.
    + rewrite Hb, !getCurrentBackoff_spec. simpl.
      now rewrite (stateOf_after_insert baseDelayMs _ _ _ _ Hm).
    + intros r'. destruct rest as [|r2 rest'].
      * intros [= <-]. simpl. now rewrite (stateOf_after_insert baseDelayMs _ _ _ _ Hm).
      * intros Hl. apply Hr. exact Hl.
Qed.

End ResetFacts.

(** ** The backoff in closed form *)

Lemma capped_doubling_closed (maxDelay b : Z) (n : nat) :
  0 <= b <= maxDelay ->
  Nat.iter n (fun x => Z.min (x * 2) maxDelay) b = Z.min (b * 2 ^ Z.of_nat n) maxDelay.
Proof.
  intros Hb. induction n as [|n IH].
  - simpl. lia.
  - rewrite Nat.iter_succ, IH.
    replace (2 ^ Z.of_nat (S n)) with (2 * 2 ^ Z.of_nat n)
      by (rewrite Nat2Z.inj_succ, Z.pow_succ_r; lia).
    assert (0 < 2 ^ Z.of_nat n) by (apply Z.pow_pos_nonneg; lia).
    lia.
Qed.

(** X6. Starting from a backoff [b] with [0 <= b <= maxDelay], [n] rate limit
    errors in a row without a reset time leave the backoff at
    [min (b * 2^n) maxDelay]; so once [b * 2^n] has reached the maximum the
    backoff is the maximum and stays there. *)
Theorem backoff_closed_form (clock : nat -> Z) (baseDelay maxDelay : Z)
    (accountId : string) (w : World) (n : nat) :
  let b := fst (getCurrentBackoff baseDelay accountId w) in
  let after k :=
    fst (getCurrentBackoff baseDelay accountId
           (snd (times k (recordRateLimitError clock baseDelay maxDelay
                            accountId None) w))) in
  0 <= b <= maxDelay ->
  after n = Z.min (b * 2 ^ Z.of_nat n) maxDelay
  /\ (maxDelay <= b * 2 ^ Z.of_nat n ->
      forall m, (n <= m)%nat -> after m = maxDelay).
Proof.
  intros b after Hb. subst after. cbv beta.
  split.
  - rewrite times_recordRateLimitError_backoff. fold b.
    now apply capped_doubling_closed.
  - intros Hcap m Hm.
    rewrite times_recordRateLimitError_backoff. fold b.
    rewrite capped_doubling_closed by exact Hb.
    assert (2 ^ Z.of_nat n <= 2 ^ Z.of_nat m)
      by (apply Z.pow_le_mono_r; lia).
    nia.
Qed.

Lemma backoff_closed_form_witness :
  fst (getCurrentBackoff 300000 "acc-1"
         (snd (times 3 (recordRateLimitError tick 300000 7200000 "acc-1" None)
                 newWorld))) = 2400000
  /\ fst (getCurrentBackoff 300000 "acc-1"
            (snd (times 9 (recordRateLimitError tick 300000 7200000 "acc-1" None)
                    newWorld))) = 7200000.
Proof.
  split.
  - exact (proj1 (backoff_closed_form tick 300000 7200000 "acc-1" newWorld 3
                    ltac:(vm_compute; split; discriminate))).
  - apply (proj2 (backoff_closed_form tick 300000 7200000 "acc-1" newWorld 5
                    ltac:(vm_compute; split; discriminate)));
      [vm_compute; discriminate | lia].
Defined.

(** ** How long a call can be asked to wait *)

Section WaitBound.

Variable clock : nat -> Z.
Variables baseDelayMs maxDelayMs : Z.

Implicit Types (w : World) (accountId : string) (s : AccountRateLimitState).

Lemma checkBackoff_clockReads s w :
  (clockReads w <= clockReads (snd (checkBackoff clock s w)))%nat.
Proof.
  unfold checkBackoff, bind, ret, DateNow.
  destruct (0 <? consecutiveErrors s); [|simpl; lia].
  destruct (lastRequestAt s); [|simpl; lia]. simpl.
  destruct (0 <? _); simpl; lia.
Qed.

Lemma shouldWait_clockReads accountId w :
  (clockReads w <= clockReads (snd (shouldWait clock baseDelayMs accountId w)))%nat.
Proof.
  rewrite (shouldWait_unfold clock baseDelayMs accountId w).
  destruct (resetAt _) as [r|]; [destruct (0 <? _)|].
  - simpl. lia.
  - etransitivity; [|apply checkBackoff_clockReads]. simpl. lia.
  - etransitivity; [|apply checkBackoff_clockReads]. simpl. lia.
Qed.

Lemma stampsPast_later m c1 c2 t1 t2 sl1 sl2 :
  (c1 <= c2)%nat ->
  stampsPast clock (mkWorld m c1 t1 sl1) -> stampsPast clock (mkWorld m c2 t2 sl2).
Proof.
  intros Hc H a s Hs l Hl. destruct (H a s Hs l Hl) as (j & Hj & ->).
  exists j. simpl in *. split; [lia | reflexivity].
Qed.

Lemma stampsPast_insert w w' accountId s :
  stampsPast clock w ->
  (clockReads w <= clockReads w')%nat ->
  accountStates w' = <[accountId := s]> (accountStates w) ->
  (forall l, lastRequestAt s = Some l ->
     exists j, (j < clockReads w')%nat /\ l = clock j) ->
  stampsPast clock w'.
Proof.
  intros H Hc Hm Hs. unfold stampsPast. rewrite Hm.
  apply map_Forall_insert_2; [exact Hs|].
  intros a s0 Ha l Hl. destruct (H a s0 Ha l Hl) as (j & Hj & ->).
  exists j. split; [lia | reflexivity].
Qed.

Lemma stateOf_stamp w accountId l :
  stampsPast clock w ->
  lastRequestAt (stateOf baseDelayMs w accountId) = Some l ->
  exists j, (j < clockReads w)%nat /\ l = clock j.
Proof.
  intros H. unfold stateOf.
  destruct (accountStates w !! accountId) as [s|] eqn:E; simpl.
  - apply (H _ _ E).
  - discriminate.
Qed.

Lemma perform_stampsPast c w :
  stampsPast clock w ->
  stampsPast clock (snd (perform clock baseDelayMs maxDelayMs c w)).
Proof.
  intros H.
  destruct c as [a|a|a r|a| |a|a]; simpl; unfold bind.
  - destruct (shouldWait_frame clock baseDelayMs w a)
      as (s' & Hm & _ & _ & H3 & _).
    pose proof (shouldWait_clockReads a w) as Hc.
    destruct (shouldWait clock baseDelayMs a w) as [v w1]; simpl in *.
    apply (stampsPast_insert w w1 a s' H Hc Hm).
    intros l Hl. rewrite H3 in Hl.
    destruct (stateOf_stamp w a l H Hl) as (j & Hj & ->).
    exists j. split; [lia | reflexivity].
  - destruct (recordSuccess_spec clock baseDelayMs w a) as (Hm & Hc & _).
    eapply stampsPast_insert; [exact H | lia | exact Hm |].
    simpl. intros l [= <-]. exists (clockReads w). split; [lia | reflexivity].
  - destruct (recordRateLimitError_spec clock baseDelayMs maxDelayMs w a r)
      as (Hm & Hc & _).
    eapply stampsPast_insert; [exact H | lia | exact Hm |].
    intros l Hl. exists (clockReads w). split; [lia|].
    destruct r; simpl in Hl; congruence.
  - intros b s Hs. simpl in Hs. apply lookup_delete_Some in Hs as [_ Hs].
    exact (H b s Hs).
  - apply map_Forall_empty.
  - rewrite getCurrentBackoff_spec. simpl.
    eapply (stampsPast_insert w); [exact H | simpl; lia | reflexivity |].
    simpl. intros l Hl. apply (stateOf_stamp w a l H Hl).
  - rewrite getConsecutiveErrors_spec. simpl.
    eapply (stampsPast_insert w); [exact H | simpl; lia | reflexivity |].
    simpl. intros l Hl. apply (stateOf_stamp w a l H Hl).
Qed.

Lemma performAll_stampsPast cs : forall w,
  stampsPast clock w ->
  stampsPast clock (snd (performAll clock baseDelayMs maxDelayMs cs w)).
Proof.
  induction cs as [|c cs IH]; intros w H; simpl.
  - exact H.
  - unfold bind. pose proof (perform_stampsPast c w H) as H1.
    destruct (perform clock baseDelayMs maxDelayMs c w) as [[] w1].
    apply IH, H1.
Qed.

(** X7. With a clock that never runs backwards and
    [0 <= baseDelay <= maxDelay], whatever calls a limiter has seen,
    [shouldWait] asks either for the time left until the reset time on
    record, or for at most the account's current backoff, which is at most
    [maxDelay]. *)
Theorem wait_is_bounded calls accountId :
  let w := limiterAfterCalls clock baseDelayMs maxDelayMs calls in
  let s := stateOf baseDelayMs w accountId in
  let v := fst (shouldWait clock baseDelayMs accountId w) in
  monotone clock ->
  0 <= baseDelayMs -> baseDelayMs <= maxDelayMs ->
  (exists r, resetAt s = Some r /\ 0 < v /\ v = r - clock (clockReads w))
  \/ (0 <= v <= currentBackoffMs s /\ currentBackoffMs s <= maxDelayMs).
Proof.
  intros w s v Hmono H0 H1.
  assert (HOK : statesOK baseDelayMs maxDelayMs w).
  { apply performAll_OK; [assumption..|]. apply map_Forall_empty. }
  assert (HP : stampsPast clock w).
  { apply performAll_stampsPast. apply map_Forall_empty. }
  pose proof (stateOf_OK baseDelayMs maxDelayMs H1 w accountId HOK)
    as (Hc & (Hb1 & Hb2) & _). fold s in Hc, Hb1, Hb2.
  assert (Hback : forall w1, (clockReads w <= clockReads w1)%nat ->
            0 <= fst (checkBackoff clock s w1) <= currentBackoffMs s).
  { intros w1 Hw1.
    destruct (checkBackoff_value clock s w1) as (_ & Hv & Hpos & Hzero).
    split; [exact Hv|].
    destruct (lastRequestAt s) as [l|] eqn:Hl.
    - destruct (Z.lt_ge_cases 0 (consecutiveErrors s)) as [Hlt|Hge].
      + rewrite (Hpos l Hlt eq_refl).
        destruct (stateOf_stamp w accountId l HP Hl) as (j & Hj & ->).
        assert (clock j <= clock (clockReads w1)) by (apply Hmono; lia).
        lia.
      + rewrite Hzero by (left; lia). lia.
    - rewrite Hzero by (right; reflexivity). lia. }
  subst v. rewrite (shouldWait_unfold clock baseDelayMs accountId w). fold s.
  destruct (resetAt s) as [r|] eqn:Hr.
  - destruct (0 <? r - clock (clockReads w)) eqn:Hw.
    + left. exists r. apply Z.ltb_lt in Hw. simpl. auto.
    + right. split; [apply Hback; simpl; lia | exact Hb2].
  - right. split; [apply Hback; simpl; lia | exact Hb2].
Qed.

End WaitBound.

Lemma wait_is_bounded_witness :
  (exists r, resetAt (stateOf 1000 sampleLimiter "a") = Some r
             /\ 0 < fst (shouldWait tick 1000 "a" sampleLimiter)
             /\ fst (shouldWait tick 1000 "a" sampleLimiter)
                = r - tick (clockReads sampleLimiter))
  \/ (0 <= fst (shouldWait tick 1000 "a" sampleLimiter)
         <= currentBackoffMs (stateOf 1000 sampleLimiter "a")
      /\ currentBackoffMs (stateOf 1000 sampleLimiter "a") <= 10000).
Proof.
  apply (wait_is_bounded tick 1000 10000 sampleCalls "a").
  - intros i j Hij. unfold tick. lia.
  - lia.
  - lia.
Defined.

(** ** What an operation leaves alone *)

Lemma preserves_ret {A B} (f : World -> B) (a : A) : preserves f (ret a).
Proof. intros w. reflexivity. Qed.

Lemma preserves_bind {A B C} (f : World -> C) (m : M A) (k : A -> M B) :
  preserves f m -> (forall a, preserves f (k a)) -> preserves f (bind m k).
Proof.
  intros Hm Hk w. unfold bind. specialize (Hm w).
  destruct (m w) as [a w1]; simpl in *. now rewrite Hk.
Qed.

Lemma preserves_getStates {B} (f : World -> B) : preserves f getStates.
Proof. intros w. reflexivity. Qed.

Lemma keepsStates_sleep ms : preserves accountStates (sleep ms).
Proof. intros w. reflexivity. Qed.

Lemma keepsStates_DateNow clock : preserves accountStates (DateNow clock).
Proof. intros w. reflexivity. Qed.

Lemma keepsStates_fetch transport : preserves accountStates (fetch transport).
Proof. intros w. reflexivity. Qed.

Lemma keepsSleep_modifyStates f : preserves slept (modifyStates f).
Proof. intros w. reflexivity. Qed.

Lemma keepsSleep_DateNow clock : preserves slept (DateNow clock).
Proof. intros w. reflexivity. Qed.

Lemma keepsSleep_fetch transport : preserves slept (fetch transport).
Proof. intros w. reflexivity. Qed.

Create HintDb preserves.
#[export] Hint Resolve preserves_ret preserves_getStates keepsStates_sleep
  keepsStates_DateNow keepsStates_fetch keepsSleep_modifyStates
  keepsSleep_DateNow keepsSleep_fetch : preserves.

Ltac preserves_steps :=
  repeat first
    [ solve [auto with preserves]
    | progress cbv zeta
    | apply preserves_bind; [|intros ?]
    | match goal with
      | |- preserves _ (match ?x with _ => _ end) => destruct x
      | |- preserves _ (if ?b then _ else _) => destruct b
      end ].

Lemma keepsStates_parseRateLimitHeaders clock dateParse headers :
  preserves accountStates (parseRateLimitHeaders clock dateParse headers).
Proof. unfold parseRateLimitHeaders, parseRetryAfter. preserves_steps. Qed.

Lemma keepsSleep_parseRateLimitHeaders clock dateParse headers :
  preserves slept (parseRateLimitHeaders clock dateParse headers).
Proof. unfold parseRateLimitHeaders, parseRetryAfter. preserves_steps. Qed.

#[export] Hint Resolve keepsStates_parseRateLimitHeaders
  keepsSleep_parseRateLimitHeaders : preserves.

Lemma keepsStates_handleResponse clock dateParse response options attempt :
  preserves accountStates (handleResponse clock dateParse response options attempt).
Proof. unfold handleResponse, throwTyped. preserves_steps. Qed.

Lemma keepsSleep_handleResponse clock dateParse response options attempt :
  preserves slept (handleResponse clock dateParse response options attempt).
Proof. unfold handleResponse, throwTyped. preserves_steps. Qed.

#[export] Hint Resolve keepsStates_handleResponse keepsSleep_handleResponse
  : preserves.

Lemma keepsStates_executeRequest clock dateParse transport buildUrl client
    options attempt :
  preserves accountStates
    (executeRequest clock dateParse transport buildUrl client options attempt).
Proof. unfold executeRequest, settle, throwTyped. preserves_steps. Qed.

Lemma keepsSleep_executeRequest clock dateParse transport buildUrl client
    options attempt :
  preserves slept
    (executeRequest clock dateParse transport buildUrl client options attempt).
Proof. unfold executeRequest, settle, throwTyped. preserves_steps. Qed.

Lemma keepsSleep_getAccountState baseDelayMs accountId :
  preserves slept (getAccountState baseDelayMs accountId).
Proof. unfold getAccountState. preserves_steps. Qed.

#[export] Hint Resolve keepsSleep_getAccountState : preserves.

Lemma keepsSleep_recordSuccess clock baseDelayMs accountId :
  preserves slept (recordSuccess clock baseDelayMs accountId).
Proof. unfold recordSuccess, mutate. preserves_steps. Qed.

Lemma keepsSleep_recordRateLimitError clock baseDelayMs maxDelayMs accountId r :
  preserves slept (recordRateLimitError clock baseDelayMs maxDelayMs accountId r).
Proof. unfold recordRateLimitError, mutate. preserves_steps. Qed.

Lemma quiet_getRetryAfterMs clock r : quiet (getRetryAfterMs clock r).
Proof. unfold getRetryAfterMs. quiet_steps. Qed.

Lemma quiet_backOff clock client accountId attempt e :
  quiet (backOff clock client accountId attempt e).
Proof.
  unfold backOff. pose proof (quiet_getRetryAfterMs clock) as H.
  quiet_steps.
Qed.

Lemma quiet_awaitRateLimit clock client accountId :
  quiet (awaitRateLimit clock client accountId).
Proof. unfold awaitRateLimit. quiet_steps. Qed.

(** ** What a response turns into *)

Section ResponseFacts.

Variable clock : nat -> Z.
Variable dateParse : string -> option Z.
Variables (options : RequestOptions) (attempt : Z).

Local Abbreviation handled response w :=
  (fst (handleResponse clock dateParse response options attempt w)).

(** X8. The error thrown for a response with a status of 400 or more carries
    in its context the status, the URL of the response, the method and the
    account of the request and the attempt number; for every status but 429
    it also carries the decoded body, or null when the body cannot be
    decoded. *)
Theorem error_carries_context response w :
  let st := respStatus response in
  400 <= st ->
  exists e,
    fst (handleResponse clock dateParse response options attempt w) = Throw (ThrownTyped e)
    /\ statusCode (context e) = Some st
    /\ ctxUrl (context e) = Some (respUrl response)
    /\ ctxMethod (context e) = Some (method options)
    /\ ctxAccountId (context e) = accountId options
    /\ retryAttempt (context e) = Some attempt
    /\ (st <> 429 -> responseBody (context e) = Some (safeParseJson response)
                     /\ rateLimitResetAt (context e) = None)
    /\ (st = 429 -> responseBody (context e) = None
                    /\ message e = "Rate limit exceeded").
Proof.
  intros st Hst. subst st. unfold handleResponse, throwTyped.
  destruct (respStatus response =? 429) eqn:E429.
  { apply Z.eqb_eq in E429. unfold bind, ret.
    destruct (parseRateLimitHeaders _ _ _ _) as [r w1]. simpl.
    eexists. repeat split; simpl; try reflexivity; try lia. }
  apply Z.eqb_neq in E429.
  repeat match goal with
         | |- context [if ?b then _ else _] => destruct b eqn:?
         end;
    try lia;
    (unfold ret; simpl; eexists;
     repeat split; try reflexivity; intros; lia).
Qed.


(** X10. A response with a status below 400 is a success, whatever the
    status: 204 gives no payload and the body is not read; otherwise a
    content type that mentions application/json gives the body decoded as
    JSON and any other or no content type gives the body as text.  The
    status and the headers are handed on as they are, and a body that
    cannot be read makes [handleResponse] throw what the reading threw. *)
Theorem success_decoding response w :
  let st := respStatus response in
  let isJson :=
    match respHeaders response !! "content-type" with
    | Some c => includes "application/json" c
    | None => false
    end in
  let wrap d := Normal (mkHttpResponse d st (respHeaders response)) in
  st < 400 ->
  handleResponse clock dateParse response options attempt w =
    (if st =? 204 then wrap PUndefined
     else if isJson then
       match json response with
       | Normal j => wrap (PJson j)
       | Throw t => Throw t
       end
     else
       match text response with
       | Normal s => wrap (PText s)
       | Throw t => Throw t
       end,
     w).
Proof.
  intros st isJson wrap Hst. subst st isJson wrap. unfold handleResponse.
  repeat match goal with
         | |- context [Z.eqb (respStatus response) ?k] =>
             lazymatch k with
             | 204 => fail
             | _ => replace (Z.eqb (respStatus response) k) with false
                      by (symmetry; apply Z.eqb_neq; lia)
             end
         | |- context [Z.leb ?k (respStatus response)] =>
             replace (Z.leb k (respStatus response)) with false
               by (symmetry; apply Z.leb_gt; lia)
         end.
  simpl. destruct (respStatus response =? 204); [reflexivity|].
  destruct (respHeaders response !! "content-type") as [c|].
  - destruct (includes "application/json" c).
    + now destruct (json response).
    + now destruct (text response).
  - now destruct (text response).
Qed.


End ResponseFacts.

Lemma error_carries_context_witness :
  exists e,
    fst (handleResponse tick (fun _ => None) badRequest sampleOptions 1 newWorld)
      = Throw (ThrownTyped e)
    /\ statusCode (context e) = Some 400
    /\ retryAttempt (context e) = Some 1.
Proof.
  destruct (error_carries_context tick (fun _ => None) sampleOptions 1
              badRequest newWorld) as (e & H & H1 & _ & _ & _ & H2 & _).
  - vm_compute. discriminate.
  - exists e. auto.
Defined.


Lemma success_decoding_witness :
  fst (handleResponse tick (fun _ => None)
         (mkResponse 302 "https://api.example.com/test"
                     {[ "content-type" := "text/html" ]}
                     (Throw (ThrownValue "not json")) (Normal "moved"))
         sampleOptions 1 newWorld)
  = Normal (mkHttpResponse (PText "moved") 302 {[ "content-type" := "text/html" ]}).
Proof.
  rewrite (success_decoding tick (fun _ => None) sampleOptions 1
             (mkResponse 302 "https://api.example.com/test"
                         {[ "content-type" := "text/html" ]}
                         (Throw (ThrownValue "not json")) (Normal "moved"))
             newWorld) by (vm_compute; reflexivity).
  vm_compute. reflexivity.
Defined.


(** ** The attempt loop as a whole *)

Section LoopFacts.

Variable clock : nat -> Z.
Variable dateParse : string -> option Z.
Variable transport : nat -> FetchOutcome.
Variable buildUrl :
  string -> string -> option (list (string * option ParamValue)) -> option string.
Variable client : HttpClient.
Variable options : RequestOptions.

Local Abbreviation baseDelay := (limiterBaseDelayMs client).
Local Abbreviation account := (default "global" (accountId options)).
Local Abbreviation maxAttempts :=
  (if enableRetry client then maxRetries client else 1).
Local Abbreviation attemptAt :=
  (executeRequest clock dateParse transport buildUrl client options).
Local Abbreviation loop :=
  (attempts clock dateParse transport buildUrl client options account).
Local Abbreviation requested :=
  (request clock dateParse transport buildUrl client options).
Local Abbreviation entry := (awaitRateLimit clock client account).
Local Abbreviation builtUrl :=
  (buildUrl (baseUrl client) (path options) (params options)).

Lemma executeRequest_no_url attempt w :
  builtUrl = None ->
  attemptAt attempt w =
    (Throw (ThrownError (mkPlainError "TypeError" "Invalid URL")), w).
Proof. unfold executeRequest. now intros ->. Qed.

Lemma executeRequest_calls_le attempt w :
  (transportCalls (snd (attemptAt attempt w)) <= S (transportCalls w))%nat.
Proof.
  destruct builtUrl as [url|] eqn:E.
  - destruct (executeRequest_with_url clock dateParse transport buildUrl client
                options attempt w url E) as [-> _]. lia.
  - rewrite (executeRequest_no_url attempt w E). simpl. lia.
Qed.

Lemma attempts_calls_le max remaining : forall attempt lastError w,
  (transportCalls (snd (loop max remaining attempt lastError w))
   <= transportCalls w + remaining)%nat.
Proof.
  induction remaining as [|remaining IH]; intros attempt lastError w.
  - simpl. lia.
  - simpl. unfold bind.
    pose proof (executeRequest_calls_le attempt w) as H1.
    destruct (attemptAt attempt w) as [[resp | error] w1]; simpl in H1.
    + pose proof (quiet_recordSuccess clock baseDelay account w1) as H2.
      destruct (recordSuccess clock baseDelay account w1) as [[] w2].
      simpl in *. lia.
    + destruct error as [e | e | v]; simpl; try lia.
      destruct (negb (isRetryable e) || (max <=? attempt)); simpl; [lia|].
      pose proof (quiet_backOff clock client account attempt e w1) as H2.
      destruct (backOff clock client account attempt e w1) as [[] w2].
      simpl in H2.
      etransitivity; [apply IH|]. lia.
Qed.

(** X12. A call of [request] calls the transport at most as many times as
    attempts are allowed: [maxRetries] times with retry enabled, once with
    retry disabled. *)
Theorem request_calls_bounded w :
  let res := request clock dateParse transport buildUrl client options w in
  (transportCalls (snd res) <= transportCalls w + Z.to_nat maxAttempts)%nat
  /\ (enableRetry client = false ->
      (transportCalls (snd res) <= transportCalls w + 1)%nat).
Proof.
  intros res. subst res.
  assert (H : (transportCalls (snd (requested w))
               <= transportCalls w + Z.to_nat maxAttempts)%nat).
  { unfold request, bind.
    pose proof (quiet_awaitRateLimit clock client account w) as Hg.
    destruct (entry w) as [[e|] w1]; simpl in *.
    - lia.
    - etransitivity; [apply attempts_calls_le|]. lia. }
  split; [exact H|]. intros Hr. rewrite Hr in H. exact H.
Qed.

(** X13. When the URL cannot be built, the [TypeError] of the URL
    constructor leaves [request] as it is, a bare error, and the transport
    is not called: a request that is not refused by the limiter and is
    allowed an attempt throws it. *)
Theorem invalid_url_throws_bare w :
  let res := request clock dateParse transport buildUrl client options w in
  buildUrl (baseUrl client) (path options) (params options) = None ->
  fst (awaitRateLimit clock client account w) = None ->
  1 <= maxAttempts ->
  fst res = Throw (ThrownError (mkPlainError "TypeError" "Invalid URL"))
  /\ transportCalls (snd res) = transportCalls w.
Proof.
  intros res Hu Hg Hm. subst res. unfold request, bind.
  pose proof (quiet_awaitRateLimit clock client account w) as Hq.
  destruct (entry w) as [blocked w1]; simpl in *. subst blocked.
  destruct (Z.to_nat maxAttempts) as [|remaining] eqn:E; [lia|].
  simpl. unfold bind. rewrite (executeRequest_no_url 1 w1 Hu). simpl.
  split; [reflexivity | exact Hq].
Qed.

End LoopFacts.

Lemma invalid_url_throws_bare_witness :
  fst (request tick (fun _ => None) alwaysBadRequest (fun _ _ _ => None)
         (sampleClient true 3) sampleOptions newWorld)
    = Throw (ThrownError (mkPlainError "TypeError" "Invalid URL"))
  /\ transportCalls
       (snd (request tick (fun _ => None) alwaysBadRequest (fun _ _ _ => None)
               (sampleClient true 3) sampleOptions newWorld))
     = transportCalls newWorld.
Proof.
  apply (invalid_url_throws_bare tick (fun _ => None) alwaysBadRequest
           (fun _ _ _ => None) (sampleClient true 3) sampleOptions newWorld);
    [reflexivity | reflexivity | vm_compute; discriminate].
Defined.

(** ** Retrying *)

Lemma retryDelay_bounds (attempt : Z) :
  1 <= attempt ->
  1000 <= retryDelay attempt <= 30000
  /\ (attempt <= 5 -> retryDelay attempt = 1000 * 2 ^ (attempt - 1))
  /\ (6 <= attempt -> retryDelay attempt = 30000).
Proof.
  intros H. unfold retryDelay.
  assert (H1 : 0 < 2 ^ (attempt - 1)) by (apply Z.pow_pos_nonneg; lia).
  split; [lia|]. split.
  - intros H5.
    assert (2 ^ (attempt - 1) <= 2 ^ 4) by (apply Z.pow_le_mono_r; lia).
    change (2 ^ 4) with 16 in *. lia.
  - intros H6.
    assert (2 ^ 5 <= 2 ^ (attempt - 1)) by (apply Z.pow_le_mono_r; lia).
    change (2 ^ 5) with 32 in *. lia.
Qed.

Section RetryFacts.

Variable clock : nat -> Z.
Variable dateParse : string -> option Z.
Variable transport : nat -> FetchOutcome.
Variable buildUrl :
  string -> string -> option (list (string * option ParamValue)) -> option string.
Variable client : HttpClient.
Variable options : RequestOptions.

Local Abbreviation baseDelay := (limiterBaseDelayMs client).
Local Abbreviation maxDelay := (limiterMaxDelayMs client).
Local Abbreviation account := (default "global" (accountId options)).
Local Abbreviation maxAttempts :=
  (if enableRetry client then maxRetries client else 1).
Local Abbreviation attemptAt :=
  (executeRequest clock dateParse transport buildUrl client options).
Local Abbreviation loop :=
  (attempts clock dateParse transport buildUrl client options account).
Local Abbreviation requested :=
  (request clock dateParse transport buildUrl client options).
Local Abbreviation entry := (awaitRateLimit clock client account).
Local Abbreviation builtUrl :=
  (buildUrl (baseUrl client) (path options) (params options)).
Local Abbreviation caught url attempt t :=
  (executeRequest_catch url (default (timeout client) (optTimeout options))
                        options attempt t).

Lemma backOff_generic accountId attempt e w :
  notRateLimitError e ->
  backOff clock client accountId attempt e w =
    (tt, mkWorld (accountStates w) (clockReads w) (transportCalls w)
                 (retryDelay attempt :: slept w)).
Proof.
  intros H. unfold backOff.
  destruct (errClass e) eqn:E; try reflexivity. now destruct (H _ _ E).
Qed.

(** X14. After a retryable error that is no rate limit error, the call
    sleeps [min (1000 * 2^(attempt-1)) 30000] ms before the next attempt:
    1000, 2000, 4000, 8000, 16000 and then 30000 from the sixth attempt on;
    the limiter is not touched. *)
Theorem generic_backoff_delay accountId attempt e w :
  let w' := snd (backOff clock client accountId attempt e w) in
  notRateLimitError e ->
  1 <= attempt ->
  slept w' = retryDelay attempt :: slept w
  /\ accountStates w' = accountStates w
  /\ 1000 <= retryDelay attempt <= 30000
  /\ (attempt <= 5 -> retryDelay attempt = 1000 * 2 ^ (attempt - 1))
  /\ (6 <= attempt -> retryDelay attempt = 30000).
Proof.
  intros w' He Ha. subst w'. rewrite (backOff_generic _ _ _ _ He). simpl.
  split; [reflexivity|]. split; [reflexivity|]. now apply retryDelay_bounds.
Qed.

(** X15. After a retryable rate limit error the call records the error in
    the limiter and sleeps: without a reset time, for the backoff just
    doubled (under the cap); with a reset time that is still ahead when the
    clock is read again, until then; with one that is not, for the backoff,
    which a reset time leaves as it was. *)
Theorem rate_limit_backoff_delay accountId attempt e w resetAt a :
  let prev := fst (getCurrentBackoff baseDelay accountId w) in
  let w' := snd (backOff clock client accountId attempt e w) in
  let later := clock (S (clockReads w)) in
  errClass e = RateLimitErrorClass resetAt a ->
  fst (getConsecutiveErrors baseDelay accountId w') =
    fst (getConsecutiveErrors baseDelay accountId w) + 1
  /\ slept w' =
       match resetAt with
       | None => Z.min (prev * 2) maxDelay
       | Some r => if 0 <? r - later then r - later else prev
       end :: slept w.
Proof.
  intros prev w' later He. subst prev w' later. unfold backOff. rewrite He.
  unfold bind.
  destruct (recordRateLimitError_spec clock baseDelay maxDelay w accountId resetAt)
    as (Hm & Hc & _ & Hs).
  destruct (recordRateLimitError clock baseDelay maxDelay accountId resetAt w)
    as [[] w1]; simpl in Hm, Hc, Hs.
  rewrite !getConsecutiveErrors_spec, getCurrentBackoff_spec.
  assert (Hnorm : forall m (x : AccountRateLimitState),
            default (freshState baseDelay) (<[accountId := x]> m !! accountId) = x)
    by (intros; now rewrite lookup_insert_eq).
  destruct resetAt as [r|]; simpl.
  - unfold bind, DateNow, ret. rewrite Hc.
    destruct (Z.ltb_spec 0 (r - clock (S (clockReads w)))) as [Hlt | Hge].
    + replace (0 <? Z.max 0 (r - clock (S (clockReads w)))) with true
        by (symmetry; apply Z.ltb_lt; lia).
      unfold stateOf; simpl. rewrite Hm, Hnorm, Hs. simpl.
      split; [reflexivity|]. f_equal. lia.
    + replace (0 <? Z.max 0 (r - clock (S (clockReads w)))) with false
        by (symmetry; apply Z.ltb_ge; lia).
      unfold bind. rewrite getCurrentBackoff_spec.
      unfold stateOf; simpl. rewrite Hm, !Hnorm, Hs. simpl.
      split; reflexivity.
  - unfold bind. rewrite getCurrentBackoff_spec.
    unfold stateOf; simpl. rewrite Hm, !Hnorm, Hs. simpl.
    split; reflexivity.
Qed.

End RetryFacts.

Lemma generic_backoff_delay_witness :
  slept (snd (backOff tick (sampleClient true 5) "acc-1" 3
                (new_ConnectionError "Connection failed: network" emptyContext)
                newWorld)) = [4000].
Proof.
  apply (generic_backoff_delay tick (sampleClient true 5) "acc-1" 3
           (new_ConnectionError "Connection failed: network" emptyContext)
           newWorld).
  - intros r a. discriminate.
  - lia.
Defined.

Lemma rate_limit_backoff_delay_witness :
  fst (getConsecutiveErrors 300000 "acc-1"
         (snd (backOff tick (sampleClient true 5) "acc-1" 1
                 (new_RateLimitError "Rate limit exceeded" emptyContext)
                 newWorld))) = 1
  /\ slept (snd (backOff tick (sampleClient true 5) "acc-1" 1
                   (new_RateLimitError "Rate limit exceeded" emptyContext)
                   newWorld)) = [600000].
Proof.
  exact (rate_limit_backoff_delay tick (sampleClient true 5) "acc-1" 1
           (new_RateLimitError "Rate limit exceeded" emptyContext)
           newWorld None None eq_refl).
Defined.

(** ** What a request leaves behind *)

Section OutcomeFacts.

Variable clock : nat -> Z.
Variable dateParse : string -> option Z.
Variable transport : nat -> FetchOutcome.
Variable buildUrl :
  string -> string -> option (list (string * option ParamValue)) -> option string.
Variable client : HttpClient.
Variable options : RequestOptions.

Local Abbreviation baseDelay := (limiterBaseDelayMs client).
Local Abbreviation account := (default "global" (accountId options)).
Local Abbreviation maxAttempts :=
  (if enableRetry client then maxRetries client else 1).
Local Abbreviation attemptAt :=
  (executeRequest clock dateParse transport buildUrl client options).
Local Abbreviation loop :=
  (attempts clock dateParse transport buildUrl client options account).
Local Abbreviation requested :=
  (request clock dateParse transport buildUrl client options).
Local Abbreviation entry := (awaitRateLimit clock client account).
Local Abbreviation builtUrl :=
  (buildUrl (baseUrl client) (path options) (params options)).
Local Abbreviation caught url attempt t :=
  (executeRequest_catch url (default (timeout client) (optTimeout options))
                        options attempt t).

Lemma handleResponse_Normal response attempt w resp :
  fst (handleResponse clock dateParse response options attempt w) = Normal resp ->
  respStatus response < 400 /\ status resp = respStatus response.
Proof.
  intros H.
  destruct (Z.lt_ge_cases (respStatus response) 400) as [Hlt | Hge].
  - split; [exact Hlt|]. revert H.
    rewrite (success_decoding clock dateParse options attempt response w Hlt).
    simpl.
    destruct (respStatus response =? 204); [now intros [= <-]|].
    destruct (match respHeaders response !! "content-type" with
              | Some c => includes "application/json" c | None => false end).
    + destruct (json response); [now intros [= <-] | discriminate].
    + destruct (text response); [now intros [= <-] | discriminate].
  - destruct (error_carries_context clock dateParse options attempt response w)
      as (e & He & _); [lia|]. congruence.
Qed.

Lemma executeRequest_Normal attempt w resp :
  fst (attemptAt attempt w) = Normal resp -> status resp < 400.
Proof.
  unfold executeRequest.
  destruct builtUrl as [url|]; [|discriminate].
  unfold settle, fetch, throwTyped. unfold bind, ret; simpl.
  destruct (transport (transportCalls w)) as [response | error]; [|discriminate].
  pose proof (handleResponse_Normal response attempt
                (mkWorld (accountStates w) (clockReads w)
                         (S (transportCalls w)) (slept w))) as H.
  destruct (handleResponse _ _ _ _ _ _) as [[r | t] w1]; simpl in *;
    [|discriminate].
  simpl. intros [= <-]. destruct (H r eq_refl) as [H1 H2]. lia.
Qed.

Lemma attempts_Normal max remaining : forall attempt lastError w resp,
  fst (loop max remaining attempt lastError w) = Normal resp ->
  status resp < 400
  /\ exists t,
       accountStates (snd (loop max remaining attempt lastError w)) !! account
       = Some (mkState 0 None baseDelay (Some t)).
Proof.
  induction remaining as [|remaining IH]; intros attempt lastError w resp.
  - simpl. discriminate.
  - simpl. unfold bind.
    pose proof (executeRequest_Normal attempt w) as HN.
    destruct (attemptAt attempt w) as [[r | error] w1]; simpl in HN.
    + destruct (recordSuccess_spec clock baseDelay w1 account) as (Hm & _).
      destruct (recordSuccess clock baseDelay account w1) as [[] w2].
      simpl in *. intros [= <-]. split; [now apply HN|].
      eexists. rewrite Hm. apply lookup_insert_eq.
    + destruct error as [e | e | v]; simpl; try discriminate.
      destruct (negb (isRetryable e) || (max <=? attempt)); simpl;
        [discriminate|].
      destruct (backOff clock client account attempt e w1) as [[] w2].
      apply IH.
Qed.

(** X16. [request] returns normally only with a response whose status is
    below 400, and then the account is restored in the limiter: no errors,
    the base backoff, and no wait for the next call. *)
Theorem request_success_restores w resp :
  let res := request clock dateParse transport buildUrl client options w in
  fst res = Normal resp ->
  status resp < 400
  /\ fst (getConsecutiveErrors baseDelay account (snd res)) = 0
  /\ fst (getCurrentBackoff baseDelay account (snd res)) = baseDelay
  /\ fst (shouldWait clock baseDelay account (snd res)) = 0.
Proof.
  intros res. subst res. unfold request, bind.
  destruct (entry w) as [[e|] w1]; simpl; [discriminate|].
  intros H. destruct (attempts_Normal _ _ _ _ _ _ H) as (Hst & t & Hm).
  split; [exact Hst|].
  rewrite getConsecutiveErrors_spec, getCurrentBackoff_spec, shouldWait_unfold.
  unfold stateOf. rewrite Hm. simpl. repeat split.
Qed.

(** With retry enabled the limiter never refuses a call. *)
Lemma entry_open_with_retry w :
  enableRetry client = true -> fst (entry w) = None.
Proof.
  intros Hr. unfold awaitRateLimit, bind.
  destruct (shouldWait clock baseDelay account w) as [v w1].
  rewrite Hr. now destruct (0 <? v).
Qed.

Lemma entry_states w :
  accountStates (snd (entry w)) =
    accountStates (snd (shouldWait clock baseDelay account w)).
Proof.
  unfold awaitRateLimit, bind.
  destruct (shouldWait clock baseDelay account w) as [v w1]; simpl.
  destruct (0 <? v); [destruct (enableRetry client)|]; reflexivity.
Qed.

(** X17. With retry disabled a failing request is not recorded in the
    limiter, not even a 429: when [request] throws, the states on record
    are the ones its opening [shouldWait] left, so the error counter and
    the backoff of the account are what they were before the call. *)
Theorem failure_without_retry_not_recorded w t :
  let res := request clock dateParse transport buildUrl client options w in
  enableRetry client = false ->
  fst res = Throw t ->
  accountStates (snd res) =
    accountStates (snd (shouldWait clock baseDelay account w))
  /\ fst (getConsecutiveErrors baseDelay account (snd res)) =
       fst (getConsecutiveErrors baseDelay account w)
  /\ fst (getCurrentBackoff baseDelay account (snd res)) =
       fst (getCurrentBackoff baseDelay account w).
Proof.
  intros res Hr Ht. subst res.
  assert (Hm : accountStates
                 (snd (request clock dateParse transport buildUrl client options w))
               = accountStates (snd (shouldWait clock baseDelay account w))).
  { revert Ht. unfold request, bind. rewrite <- entry_states.
    destruct (entry w) as [[e|] w1]; simpl; [reflexivity|].
    rewrite Hr. simpl. unfold bind.
    pose proof (keepsStates_executeRequest clock dateParse transport buildUrl
                  client options 1 w1) as Hk.
    destruct (attemptAt 1 w1) as [[r | error] w2]; simpl in Hk.
    - destruct (recordSuccess clock baseDelay account w2) as [[] w3].
      discriminate.
    - destruct error as [e | e | v]; simpl; try (intros _; exact Hk).
      replace (negb (isRetryable e) || (1 <=? 1)) with true
        by (now destruct (isRetryable e)).
      intros _. exact Hk. }
  split; [exact Hm|].
  destruct (shouldWait_frame clock baseDelay w account)
    as (s' & Hs & H1 & H2 & _).
  rewrite !getConsecutiveErrors_spec, !getCurrentBackoff_spec. simpl.
  unfold stateOf at 1 3. rewrite Hm, Hs, lookup_insert_eq. simpl.
  split; assumption.
Qed.

End OutcomeFacts.

Lemma request_success_restores_witness :
  fst (getConsecutiveErrors (limiterBaseDelayMs (sampleClient true 3))
         (default "global" (accountId sampleOptions))
         (snd (request tick (fun _ => None) rateLimitedThenOk sampleBuildUrl
                 (sampleClient true 3) sampleOptions newWorld)))
  = 0.
Proof.
  assert (H : fst (request tick (fun _ => None) rateLimitedThenOk sampleBuildUrl
                     (sampleClient true 3) sampleOptions newWorld)
              = Normal (mkHttpResponse (PJson successBody) 200 jsonHeaders))
    by (vm_compute; reflexivity).
  exact (proj1 (proj2 (request_success_restores tick (fun _ => None)
                         rateLimitedThenOk sampleBuildUrl (sampleClient true 3)
                         sampleOptions newWorld _ H))).
Defined.

Lemma failure_without_retry_not_recorded_witness :
  fst (getConsecutiveErrors (limiterBaseDelayMs (sampleClient false 5))
         (default "global" (accountId sampleOptions))
         (snd (request tick (fun _ => None) rateLimitedOnce sampleBuildUrl
                 (sampleClient false 5) sampleOptions newWorld)))
  = fst (getConsecutiveErrors (limiterBaseDelayMs (sampleClient false 5))
           (default "global" (accountId sampleOptions)) newWorld).
Proof.
  assert (H : fst (request tick (fun _ => None) rateLimitedOnce sampleBuildUrl
                     (sampleClient false 5) sampleOptions newWorld)
              = Throw (ThrownTyped
                  (new_RateLimitError "Rate limit exceeded"
                     (mkContext (Some 429) (Some "https://api.example.com/test")
                                (Some GET) None (Some "acc-1") (Some 1)
                                (Some 60000) None))))
    by (vm_compute; reflexivity).
  exact (proj1 (proj2 (failure_without_retry_not_recorded tick (fun _ => None)
                         rateLimitedOnce sampleBuildUrl (sampleClient false 5)
                         sampleOptions newWorld _ eq_refl H))).
Defined.

(** ** A transport that keeps failing *)

Lemma delaysBetween_retryDelays (n : nat) :
  delaysBetween 1 n = retryDelays n.
Proof.
  assert (G : forall k a, delaysBetween a (S k) =
                retryDelay (a + Z.of_nat k) :: delaysBetween a k).
  { induction k as [|k IH]; intros a.
    - simpl. now rewrite Z.add_0_r.
    - change (delaysBetween a (S (S k)))
        with (delaysBetween (a + 1) (S k) ++ [retryDelay a]).
      rewrite IH. simpl. do 2 f_equal. lia. }
  induction n as [|n IH]; [reflexivity|].
  rewrite G, IH. simpl retryDelays. do 2 f_equal. lia.
Qed.

Section FailureFacts.

Variable clock : nat -> Z.
Variable dateParse : string -> option Z.
Variable transport : nat -> FetchOutcome.
Variable buildUrl :
  string -> string -> option (list (string * option ParamValue)) -> option string.
Variable client : HttpClient.
Variable options : RequestOptions.

Local Abbreviation baseDelay := (limiterBaseDelayMs client).
Local Abbreviation account := (default "global" (accountId options)).
Local Abbreviation attemptAt :=
  (executeRequest clock dateParse transport buildUrl client options).
Local Abbreviation loop :=
  (attempts clock dateParse transport buildUrl client options account).
Local Abbreviation entry := (awaitRateLimit clock client account).
Local Abbreviation builtUrl :=
  (buildUrl (baseUrl client) (path options) (params options)).
Local Abbreviation caught url attempt t :=
  (executeRequest_catch url (default (timeout client) (optTimeout options))
                        options attempt t).

Lemma caught_untyped url attempt o :
  untypedRejection o ->
  isRetryable (caught url attempt (rejectionOf o)) = true
  /\ notRateLimitError (caught url attempt (rejectionOf o)).
Proof.
  destruct o as [response | [e | e | v]]; simpl; try contradiction; intros _.
  - destruct (String.eqb (errName e) "AbortError");
      [|destruct (_ || _)]; (split; [reflexivity | intros r a; discriminate]).
  - split; [reflexivity | intros r a; discriminate].
Qed.

Lemma executeRequest_untyped url attempt w :
  builtUrl = Some url ->
  untypedRejection (transport (transportCalls w)) ->
  attemptAt attempt w =
    (Throw (ThrownTyped (caught url attempt (rejectionOf (transport (transportCalls w))))),
     mkWorld (accountStates w) (clockReads w) (S (transportCalls w)) (slept w)).
Proof.
  intros Hu Ho. rewrite (executeRequest_settles _ _ _ _ _ _ _ _ _ Hu).
  destruct (transport (transportCalls w)) as [response | error];
    [contradiction | reflexivity].
Qed.

(** One iteration of the loop whose attempt throws a typed error. *)
Lemma attempts_typed_step max remaining attempt lastError w e w1 :
  attemptAt attempt w = (Throw (ThrownTyped e), w1) ->
  loop max (S remaining) attempt lastError w =
    if negb (isRetryable e) || (max <=? attempt) then (Throw (ThrownTyped e), w1)
    else loop max remaining (attempt + 1) (Some (ThrownTyped e))
              (snd (backOff clock client account attempt e w1)).
Proof.
  intros H. cbn [attempts]. unfold bind. rewrite H. cbv beta iota.
  destruct (negb (isRetryable e) || (max <=? attempt)); [reflexivity|].
  now destruct (backOff clock client account attempt e w1) as [[] w2].
Qed.

Lemma attempts_all_rejected url max remaining : forall attempt lastError w,
  builtUrl = Some url ->
  (forall k, untypedRejection (transport k)) ->
  attempt + Z.of_nat remaining = max ->
  let res := loop max (S remaining) attempt lastError w in
  fst res = Throw (ThrownTyped
              (caught url max
                 (rejectionOf (transport (transportCalls w + remaining)))))
  /\ transportCalls (snd res) = (transportCalls w + S remaining)%nat
  /\ slept (snd res) = delaysBetween attempt remaining ++ slept w
  /\ accountStates (snd res) = accountStates w.
Proof.
  induction remaining as [|remaining IH];
    intros attempt lastError w Hu Hall Hmax res; subst res;
    rewrite (attempts_typed_step _ _ _ _ _ _ _
               (executeRequest_untyped url attempt w Hu (Hall _)));
    destruct (caught_untyped url attempt _ (Hall (transportCalls w)))
      as [Hr Hn];
    rewrite Hr; simpl negb; simpl orb.
  - replace (max <=? attempt) with true by (symmetry; apply Z.leb_le; lia).
    simpl. rewrite Nat.add_0_r.
    replace attempt with max by lia. repeat split. lia.
  - replace (max <=? attempt) with false by (symmetry; apply Z.leb_gt; lia).
    rewrite (backOff_generic clock client account attempt _ _ Hn).
    cbn [snd].
    assert (Hnext : attempt + 1 + Z.of_nat remaining = max) by lia.
    match goal with |- context [loop max (S remaining) ?a ?l ?w1] =>
      remember w1 as w2 eqn:E;
      destruct (IH a l w2 Hu Hall Hnext) as (H1 & H2 & H3 & H4) end.
    rewrite H1, H2, H3, H4, E. cbn [transportCalls slept accountStates].
    split; [now rewrite Nat.add_succ_comm|]. split; [lia|].
    split; [|reflexivity].
    cbn [delaysBetween]. now rewrite <- app_assoc.
Qed.

(** X18. When every call of the transport is rejected with something that
    is not a typed error (a network failure, a timeout), a request with
    retry enabled and [maxRetries >= 1] calls the transport exactly
    [maxRetries] times, sleeps 1000, 2000, 4000, ... (capped at 30000) ms
    between the attempts, leaves the limiter alone, and throws what the
    last rejection is classified as, with the last attempt's number. *)
Theorem persistent_failure_exhausts_retries w url :
  let res := request clock dateParse transport buildUrl client options w in
  let n := Z.to_nat (maxRetries client) in
  let w1 := snd (awaitRateLimit clock client account w) in
  enableRetry client = true ->
  1 <= maxRetries client ->
  buildUrl (baseUrl client) (path options) (params options) = Some url ->
  (forall k, untypedRejection (transport k)) ->
  fst res = Throw (ThrownTyped
              (executeRequest_catch url
                 (default (timeout client) (optTimeout options)) options
                 (maxRetries client)
                 (rejectionOf (transport (transportCalls w + (n - 1))))))
  /\ transportCalls (snd res) = (transportCalls w + n)%nat
  /\ slept (snd res) = retryDelays (n - 1) ++ slept w1
  /\ accountStates (snd res) = accountStates w1.
Proof.
  intros res n w1 Hr Hm Hu Hall. subst res n w1.
  unfold request, bind.
  pose proof (entry_open_with_retry clock client options w Hr) as Hg.
  pose proof (quiet_awaitRateLimit clock client account w) as Hq.
  destruct (entry w) as [blocked w1]; simpl in Hg, Hq |- *. subst blocked.
  rewrite Hr.
  destruct (Z.to_nat (maxRetries client)) as [|remaining] eqn:E; [lia|].
  destruct (attempts_all_rejected url (maxRetries client) remaining 1 None w1
              Hu Hall ltac:(lia)) as (H1 & H2 & H3 & H4).
  rewrite H1, H2, H3, H4, Hq, delaysBetween_retryDelays.
  replace (S remaining - 1)%nat with remaining by lia.
  repeat split.
Qed.

End FailureFacts.

Lemma persistent_failure_exhausts_retries_witness :
  transportCalls
    (snd (request tick (fun _ => None) alwaysOffline sampleBuildUrl
            (sampleClient true 3) sampleOptions newWorld)) = 3%nat
  /\ slept
       (snd (request tick (fun _ => None) alwaysOffline sampleBuildUrl
               (sampleClient true 3) sampleOptions newWorld)) = [2000; 1000].
Proof.
  assert (Hm : 1 <= maxRetries (sampleClient true 3)) by (vm_compute; discriminate).
  pose proof (persistent_failure_exhausts_retries tick (fun _ => None)
                alwaysOffline sampleBuildUrl (sampleClient true 3)
                sampleOptions newWorld "https://api.example.com:443/test"
                eq_refl Hm eq_refl (fun _ => I)) as H.
  cbv zeta in H. destruct H as (_ & H2 & H3 & _).
  split; [exact H2 | exact H3].
Defined.

(** ** Resetting through the client *)

(** X19. After [resetRateLimit] for an account, the rate limit check that
    opens a request for it lets the request through without a wait,
    whatever was on record and whether retry is enabled or not; after
    [resetAllRateLimits] this holds of every account. *)
Theorem reset_lifts_refusal (clock : nat -> Z) (client : HttpClient)
    (accountId : string) (w : World) :
  let one := snd (resetRateLimit accountId w) in
  let all := snd (resetAllRateLimits w) in
  (fst (awaitRateLimit clock client accountId one) = None
   /\ slept (snd (awaitRateLimit clock client accountId one)) = slept w)
  /\ (fst (awaitRateLimit clock client accountId all) = None
      /\ slept (snd (awaitRateLimit clock client accountId all)) = slept w).
Proof.
  intros one all.
  assert (G : forall w', accountStates w' !! accountId = None ->
            fst (awaitRateLimit clock client accountId w') = None
            /\ slept (snd (awaitRateLimit clock client accountId w')) = slept w').
  { intros w' Hnew. unfold awaitRateLimit, bind.
    pose proof (shouldWait_fresh clock (limiterBaseDelayMs client) w' accountId
                  Hnew) as H0.
    pose proof (shouldWait_slept clock client accountId w') as Hs.
    destruct (shouldWait clock _ accountId w') as [v w1]; simpl in *.
    subst v. simpl. now split. }
  split.
  - apply (G one). subst one. unfold resetRateLimit, reset, modifyStates; simpl.
    apply lookup_delete_eq.
  - apply (G all). reflexivity.
Qed.

(** ** A client from the environment *)

(** X20. With UNIPILE_DSN and UNIPILE_API_KEY both set and not empty,
    [fromEnv] builds a client: its base URL is the DSN behind [https://],
    or behind [http://] when UNIPILE_USE_HTTP is exactly [true], its key is
    the one given, and everything else takes the defaults: a timeout of
    30000 ms, retry enabled with at most 5 attempts, and a limiter that
    backs off from 300000 ms to at most 7200000 ms. *)
Theorem fromEnv_builds_client (env : gmap string string) (d k : string) :
  env !! "UNIPILE_DSN" = Some d -> d <> "" ->
  env !! "UNIPILE_API_KEY" = Some k -> k <> "" ->
  exists c,
    fromEnv env = Normal c
    /\ baseUrl (httpClient c) =
         (if bool_decide (env !! "UNIPILE_USE_HTTP" = Some "true")
          then "http://" else "https://") +:+ d
    /\ apiKey (httpClient c) = k
    /\ timeout (httpClient c) = 30000
    /\ enableRetry (httpClient c) = true
    /\ maxRetries (httpClient c) = 5
    /\ limiterBaseDelayMs (httpClient c) = 300000
    /\ limiterMaxDelayMs (httpClient c) = 7200000.
Proof.
  intros Hd Hdne Hk Hkne. unfold fromEnv. rewrite Hd, Hk.
  destruct d as [|cd d]; [contradiction|].
  destruct k as [|ck k]; [contradiction|].
  eexists. split; [reflexivity|]. simpl.
  repeat split. now destruct (bool_decide _).
Qed.

Lemma fromEnv_builds_client_witness :
  exists c,
    fromEnv {[ "UNIPILE_DSN" := "api.example.com:443";
               "UNIPILE_API_KEY" := "test-key";
               "UNIPILE_USE_HTTP" := "TRUE" ]} = Normal c
    /\ baseUrl (httpClient c) = "https://api.example.com:443".
Proof.
  destruct (fromEnv_builds_client
              {[ "UNIPILE_DSN" := "api.example.com:443";
                 "UNIPILE_API_KEY" := "test-key";
                 "UNIPILE_USE_HTTP" := "TRUE" ]}
              "api.example.com:443" "test-key")
    as (c & H1 & H2 & _);
    [reflexivity | discriminate | reflexivity | discriminate |].
  exists c. split; [exact H1 | exact H2].
Defined.

(** X21. The error of [fromEnv] names the variable that is missing, with
    UNIPILE_DSN looked at first: without a DSN the message is about
    UNIPILE_DSN whatever the key is, and with a DSN but no key it is about
    UNIPILE_API_KEY.  UNIPILE_USE_HTTP plays no part in it. *)
Theorem fromEnv_names_missing_variable (env : gmap string string) :
  let required name :=
    Throw (ThrownError
             (mkPlainError "Error" (name +:+ " environment variable is required")))
    : Completion UnipileClient in
  let missing name := env !! name = None \/ env !! name = Some "" in
  (missing "UNIPILE_DSN" -> fromEnv env = required "UNIPILE_DSN")
  /\ (~ missing "UNIPILE_DSN" -> missing "UNIPILE_API_KEY" ->
      fromEnv env = required "UNIPILE_API_KEY")
  /\ (missing "UNIPILE_DSN" \/ missing "UNIPILE_API_KEY" ->
      forall v, fromEnv (<["UNIPILE_USE_HTTP" := v]> env) = fromEnv env).
Proof.
  intros required missing. subst required missing. cbv beta.
  split; [|split].
  - intros H. now apply fromEnv_dsn_missing.
  - intros Hd Hk. unfold fromEnv.
    destruct (env !! "UNIPILE_DSN") as [[|c d]|];
      [exfalso; apply Hd; now right | | exfalso; apply Hd; now left].
    destruct Hk as [-> | ->]; reflexivity.
  - intros H v. unfold fromEnv.
    rewrite !(lookup_insert_ne _ "UNIPILE_USE_HTTP") by discriminate.
    destruct (env !! "UNIPILE_DSN") as [[|c d]|]; try reflexivity.
    destruct (env !! "UNIPILE_API_KEY") as [[|c' k]|]; try reflexivity.
    exfalso. destruct H as [[H | H] | [H | H]]; discriminate.
Qed.
